(** * charon configuration manager: policy and credential registry

    A shallow embedding of [Source/charon/config/configuration_manager.c]:
    the private data of [configuration_manager_t], its lookup methods,
    its registration methods, the timing functions and the destructor,
    followed by the properties they satisfy.

    Conventions of the embedding.
    - A method of [private_configuration_manager_t] is a computation in
      the monad [M]: it receives the object behind [this], returns a
      value, the object afterwards, and the list of calls it made on
      other objects (host and identification predicates, destructors,
      the allocator).  Calls of [logger->log] are left out.
    - A method with an out-parameter returns its [status_t] together with
      an [option]: [Some v] when [v] was written through the
      out-parameter, [None] when the out-parameter was left untouched.
    - [u_int32_t] and [int] values are integers in [Z]; every conversion
      and every arithmetic step of an [int] is wrapped to 32 bits.
    - A [char *] is a [string] holding the bytes in front of the
      terminator of its buffer; the first zero character of the string,
      if there is one, terminates the C string earlier.
    - A pointer to an [init_config_t] or [sa_config_t] object is the
      object together with its address; [==] on such pointers compares
      the addresses. *)

From Stdlib Require Import ZArith List Bool Lia.
From Stdlib.Strings Require Import String Ascii Byte.
From Equations Require Import Equations.
Import ListNotations.

Set Implicit Arguments.

(** ** Status codes and machine integers *)

(** The members of [status_t] this file returns. *)
Inductive status_t : Type :=
| SUCCESS
| FAILED
| NOT_FOUND.

Module Int32.
Local Open Scope Z_scope.

Definition modulus : Z := 2 ^ 32.
Definition half_modulus : Z := 2 ^ 31.

(** Value of an integer as [u_int32_t]. *)
Definition u32 (x : Z) : Z := x mod modulus.

(** Value of an integer as a 32-bit two's complement [int]. *)
Definition s32 (x : Z) : Z := (x + half_modulus) mod modulus - half_modulus.

Lemma u32_range x : 0 <= u32 x < modulus.
Proof. unfold u32, modulus. apply Z.mod_pos_bound. lia. Qed.

Lemma u32_small x : 0 <= x < modulus -> u32 x = x.
Proof. intros Hx. unfold u32. apply Z.mod_small. exact Hx. Qed.

Lemma u32_s32 x : u32 (s32 x) = u32 x.
Proof.
  unfold u32, s32, modulus, half_modulus.
  rewrite Zminus_mod_idemp_l.
  f_equal. lia.
Qed.

Lemma u32_mul_2 x : u32 (u32 x * 2) = u32 (x * 2).
Proof. unfold u32. apply Z.mul_mod_idemp_l. unfold modulus. lia. Qed.

Lemma u32_succ x : u32 x + 1 < modulus -> u32 (s32 (x + 1)) = u32 x + 1.
Proof.
  intros Hlt. rewrite u32_s32. unfold u32 in *.
  rewrite <- Zplus_mod_idemp_l.
  apply Z.mod_small.
  pose proof (u32_range x) as Hr. unfold u32 in Hr. lia.
Qed.
End Int32.
Import Int32.

(** ** C strings and chunks *)

Module CString.

Definition NUL : ascii := Ascii.zero.

Definition code (c : ascii) : Z := Z.of_N (N_of_ascii c).

(** [strlen]: the number of characters in front of the terminator. *)
Fixpoint strlen (s : string) : nat :=
  match s with
  | EmptyString => 0
  | String c s' => if Ascii.eqb c NUL then 0 else S (strlen s')
  end.

(** [strcpy] into a fresh buffer: the characters up to the terminator. *)
Fixpoint strcpy (s : string) : string :=
  match s with
  | EmptyString => EmptyString
  | String c s' => if Ascii.eqb c NUL then EmptyString else String c (strcpy s')
  end.

(** [strcmp]: difference of the first pair of characters that differ,
    the end of a buffer reading as the terminator. *)
Fixpoint strcmp (a b : string) : Z :=
  match a, b with
  | EmptyString, EmptyString => 0
  | EmptyString, String cb _ => (0 - code cb)%Z
  | String ca _, EmptyString => (code ca - 0)%Z
  | String ca a', String cb b' =>
      if Ascii.eqb ca cb
      then (if Ascii.eqb ca NUL then 0%Z else strcmp a' b')
      else (code ca - code cb)%Z
  end.

(** The bytes of the buffer a [char *] points to, terminator included. *)
Definition buffer (s : string) : list byte :=
  list_byte_of_string s ++ [x00].

(** [memcpy] of [n] bytes out of a buffer. *)
Definition memcpy (src : list byte) (n : nat) : list byte := firstn n src.

Lemma code_inj c d : code c = code d -> c = d.
Proof.
  unfold code. intros H. apply N2Z.inj in H.
  rewrite <- (ascii_N_embedding c), <- (ascii_N_embedding d).
  now rewrite H.
Qed.

Lemma code_NUL c : code c = 0%Z -> c = NUL.
Proof. intros H. apply code_inj. exact H. Qed.

Lemma strcpy_no_NUL s :
  (forall c, In c (list_ascii_of_string s) -> c <> NUL) -> strcpy s = s.
Proof.
  induction s as [|c s IH]; simpl; intros H; [reflexivity|].
  destruct (Ascii.eqb_spec c NUL) as [->|_].
  - exfalso. apply (H NUL); [now left | reflexivity].
  - f_equal. apply IH. intros d Hd. apply H. now right.
Qed.

Lemma strcpy_idem s : strcpy (strcpy s) = strcpy s.
Proof.
  induction s as [|c s IH]; simpl; [reflexivity|].
  destruct (Ascii.eqb_spec c NUL) as [->|Hc]; simpl; [reflexivity|].
  destruct (Ascii.eqb_spec c NUL); [contradiction|].
  now rewrite IH.
Qed.

(** [strcmp] returns zero exactly on equal C strings. *)
Lemma strcmp_eq_0 a b : strcmp a b = 0%Z <-> strcpy a = strcpy b.
Proof.
  revert b. induction a as [|ca a IH]; intros [|cb b]; simpl.
  - tauto.
  - destruct (Ascii.eqb_spec cb NUL) as [->|Hb].
    + split; reflexivity.
    + split; [|discriminate]. intros H. exfalso. apply Hb, code_NUL. lia.
  - destruct (Ascii.eqb_spec ca NUL) as [->|Ha].
    + split; reflexivity.
    + split; [|discriminate]. intros H. exfalso. apply Ha, code_NUL. lia.
  - destruct (Ascii.eqb_spec ca cb) as [->|Hab].
    + destruct (Ascii.eqb_spec cb NUL) as [->|Hb]; [tauto|].
      rewrite IH. split; [intros ->; reflexivity | intros H; now inversion H].
    + split.
      * intros H. exfalso. apply Hab, code_inj. lia.
      * destruct (Ascii.eqb_spec ca NUL) as [->|Ha];
          destruct (Ascii.eqb_spec cb NUL) as [->|Hb];
          try discriminate; try congruence.
  Qed.

End CString.
Import CString.

(** A [chunk_t]: [len] bytes at [ptr]. *)
Definition chunk_t : Type := list byte.

(** An address of an object on the heap. *)
Definition pointer : Type := N.

(** Modelled from the spec: the declaration of [id_type_t] is not part
    of this file; the kinds of Identity the spec names are an IPv4
    address and a fully-qualified name. *)
Inductive id_type_t : Type :=
| ID_IPV4_ADDR
| ID_FQDN.

(** ** Collaborator interfaces *)

(** The two predicates of [host_t] the manager calls. *)
Class Host (host_t : Type) : Type := {
  ip_is_equal : host_t -> host_t -> bool;
  is_default_route : host_t -> bool
}.

(** The constructor and the predicate of [identification_t] the manager
    calls. *)
Class Identification (identification_t : Type) : Type := {
  identification_create_from_string : id_type_t -> string -> identification_t;
  equals : identification_t -> identification_t -> bool
}.

(** [rsa_public_key_create] / [rsa_private_key_create] followed by
    [set_key]. *)
Class RsaKeys (rsa_public_key_t rsa_private_key_t : Type) : Type := {
  rsa_public_key_set_key : chunk_t -> rsa_public_key_t;
  rsa_private_key_set_key : chunk_t -> rsa_private_key_t
}.


(** ** The configuration manager *)

Section ConfigurationManager.

Context {host_t identification_t rsa_public_key_t rsa_private_key_t : Type}.
Context `{HostOps : Host host_t}.
Context `{IdentificationOps : Identification identification_t}.
Context `{KeyOps : RsaKeys rsa_public_key_t rsa_private_key_t}.

(** Modelled from the spec: [init_config_t] is declared elsewhere; an
    Initiation-Policy carries the local and the remote Host.  The object
    is kept with the address it lives at. *)
Record init_config_t : Type := {
  init_config_addr : pointer;
  get_my_host : host_t;
  get_other_host : host_t
}.

(** Modelled from the spec: [sa_config_t] is declared elsewhere; a
    Session-Policy carries the local and the remote Identity.  The object
    is kept with the address it lives at. *)
Record sa_config_t : Type := {
  sa_config_addr : pointer;
  get_my_id : identification_t;
  get_other_id : identification_t
}.

(** [preshared_secret_entry_t]. *)
Record preshared_secret_entry_t : Type := {
  identification : identification_t;
  preshared_secret : chunk_t
}.

(** [rsa_private_key_entry_t]. *)
Record rsa_private_key_entry_t : Type := {
  private_key_identification : identification_t;
  private_key : rsa_private_key_t
}.

(** [rsa_public_key_entry_t]. *)
Record rsa_public_key_entry_t : Type := {
  public_key_identification : identification_t;
  public_key : rsa_public_key_t
}.

(** [configuration_entry_t]: a name with the two configurations it
    refers to. *)
Record configuration_entry_t : Type := {
  name : string;
  init_config : init_config_t;
  sa_config : sa_config_t
}.

(** [configuration_entry_create]: the name gets copied. *)
Definition configuration_entry_create
    (name : string) (init_config : init_config_t) (sa_config : sa_config_t)
    : configuration_entry_t :=
  {| name := strcpy name; init_config := init_config; sa_config := sa_config |}.

(** [private_configuration_manager_t]: the six linked lists, first
    element first, and the three timing values. *)
Record private_configuration_manager_t : Type := {
  configurations : list configuration_entry_t;
  init_configs : list init_config_t;
  sa_configs : list sa_config_t;
  preshared_secrets : list preshared_secret_entry_t;
  rsa_private_keys : list rsa_private_key_entry_t;
  rsa_public_keys : list rsa_public_key_entry_t;
  max_retransmit_count : Z;
  first_retransmit_timeout : Z;
  half_open_ike_sa_timeout : Z
}.

(** *** Calls on collaborators *)

(** Which host of a configuration entry a predicate is called on. *)
Inductive host_role : Type :=
| role_my_host
| role_other_host.

(** The six lists of the manager. *)
Inductive linked_list : Type :=
| configurations_list
| sa_configs_list
| init_configs_list
| preshared_secrets_list
| rsa_private_keys_list
| rsa_public_keys_list.

(** What [allocator_free] is called on: the name of a configuration
    entry, an entry of one of the lists, or the manager itself. *)
Inductive allocation : Type :=
| freed_name (name : string)
| freed_configuration_entry (entry : configuration_entry_t)
| freed_preshared_secret_entry (entry : preshared_secret_entry_t)
| freed_rsa_private_key_entry (entry : rsa_private_key_entry_t)
| freed_rsa_public_key_entry (entry : rsa_public_key_entry_t)
| freed_this.

(** A call a method makes on another object.  The [destroy] of a list
    is recorded with the number of elements the list holds at that
    moment. *)
Inductive call : Type :=
| call_ip_is_equal (role : host_role) (this other : host_t)
| call_is_default_route (role : host_role) (this : host_t)
| call_equals (this other : identification_t)
| call_sa_config_destroy (sa_config : sa_config_t)
| call_init_config_destroy (init_config : init_config_t)
| call_identification_destroy (id : identification_t)
| call_allocator_free_chunk (chunk : chunk_t)
| call_rsa_private_key_destroy (key : rsa_private_key_t)
| call_rsa_public_key_destroy (key : rsa_public_key_t)
| call_allocator_free (freed : allocation)
| call_linked_list_destroy (which : linked_list) (count : nat)
| call_destroy_logger.

(** *** The monad of methods *)

Definition M (A : Type) : Type :=
  private_configuration_manager_t ->
  A * private_configuration_manager_t * list call.

Definition ret {A : Type} (a : A) : M A :=
  fun this => (a, this, []).

Definition bind {A B : Type} (m : M A) (k : A -> M B) : M B :=
  fun this =>
    let '(a, this', calls) := m this in
    let '(b, this'', calls') := k a this' in
    (b, this'', calls ++ calls').

(** Read the object behind [this]. *)
Definition get_this : M private_configuration_manager_t :=
  fun this => (this, this, []).

(** Assign through [this]. *)
Definition set_this (this' : private_configuration_manager_t) : M unit :=
  fun _ => (tt, this', []).

(** Record a call made for its effect. *)
Definition perform (c : call) : M unit :=
  fun this => (tt, this, [c]).

(** The value, the object afterwards and the calls of a run. *)
Definition result {A : Type} (m : M A) (this : private_configuration_manager_t) : A :=
  fst (fst (m this)).

Definition final {A : Type} (m : M A) (this : private_configuration_manager_t)
    : private_configuration_manager_t :=
  snd (fst (m this)).

Definition calls {A : Type} (m : M A) (this : private_configuration_manager_t)
    : list call :=
  snd (m this).

Notation "x <- m ;; k" := (bind m (fun x => k))
  (at level 61, m at next level, right associativity).
Notation "m ;;; k" := (bind m (fun _ => k))
  (at level 61, right associativity).

(** The predicates of the collaborators, as calls. *)
Definition ip_is_equal_call (role : host_role) (this other : host_t) : M bool :=
  fun m => (ip_is_equal this other, m, [call_ip_is_equal role this other]).

Definition is_default_route_call (role : host_role) (this : host_t) : M bool :=
  fun m => (is_default_route this, m, [call_is_default_route role this]).

Definition equals_call (this other : identification_t) : M bool :=
  fun m => (equals this other, m, [call_equals this other]).

(** The iterator protocol of [linked_list_t], for an iterator made by
    [create_iterator(list, TRUE)], which runs from the first element to
    the last: [while (has_next) { current(&entry); body }], where the
    body either breaks with a value or falls through to the next
    element. *)
Fixpoint iterate {A R : Type} (l : list A) (body : A -> M (option R))
    : M (option R) :=
  match l with
  | [] => ret None
  | entry :: rest =>
      r <- body entry ;;
      match r with
      | Some v => ret (Some v)
      | None => iterate rest body
      end
  end.

(** [status] starts as [NOT_FOUND] and becomes [SUCCESS] where the loop
    breaks after writing the out-parameter. *)
Definition found {R : Type} (r : option R) : status_t * option R :=
  match r with
  | Some v => (SUCCESS, Some v)
  | None => (NOT_FOUND, None)
  end.

(** *** Lookups *)

(** The body of the loop of [get_init_config_for_host]. *)
Definition host_entry_check (my_host other_host : host_t)
    (entry : configuration_entry_t) : M (option init_config_t) :=
  let config_my_host := get_my_host (init_config entry) in
  let config_other_host := get_other_host (init_config entry) in
  remote_equal <- ip_is_equal_call role_other_host config_other_host other_host ;;
  if remote_equal then
    local_default <- is_default_route_call role_my_host config_my_host ;;
    if local_default then ret (Some (init_config entry))
    else
      local_equal <- ip_is_equal_call role_my_host config_my_host my_host ;;
      if local_equal then ret (Some (init_config entry))
      else ret None
  else
    remote_default <- is_default_route_call role_other_host config_other_host ;;
    if remote_default then
      local_default <- is_default_route_call role_my_host config_my_host ;;
      if local_default then ret (Some (init_config entry))
      else
        local_equal <- ip_is_equal_call role_my_host config_my_host my_host ;;
        if local_equal then ret (Some (init_config entry))
        else ret None
    else ret None.

(** [get_init_config_for_host]. *)
Definition get_init_config_for_host (my_host other_host : host_t)
    : M (status_t * option init_config_t) :=
  this <- get_this ;;
  r <- iterate (configurations this) (host_entry_check my_host other_host) ;;
  ret (found r).

(** [get_init_config_for_name]. *)
Definition get_init_config_for_name (name_ : string)
    : M (status_t * option init_config_t) :=
  this <- get_this ;;
  r <- iterate (configurations this) (fun entry =>
         if (strcmp (name entry) name_ =? 0)%Z
         then ret (Some (init_config entry))
         else ret None) ;;
  ret (found r).

(** [get_sa_config_for_name]. *)
Definition get_sa_config_for_name (name_ : string)
    : M (status_t * option sa_config_t) :=
  this <- get_this ;;
  r <- iterate (configurations this) (fun entry =>
         if (strcmp (name entry) name_ =? 0)%Z
         then ret (Some (sa_config entry))
         else ret None) ;;
  ret (found r).

(** The body of the loop of [get_sa_config_for_init_config_and_id];
    [my_id] is [None] for a [NULL] pointer. *)
Definition id_entry_check (init_config_ : init_config_t)
    (other_id : identification_t) (my_id : option identification_t)
    (entry : configuration_entry_t) : M (option sa_config_t) :=
  if (init_config_addr (init_config entry) =? init_config_addr init_config_)%N then
    let config_my_id := get_my_id (sa_config entry) in
    let config_other_id := get_other_id (sa_config entry) in
    other_equal <- equals_call config_other_id other_id ;;
    if other_equal then
      match my_id with
      | None => ret (Some (sa_config entry))
      | Some my_id =>
          my_equal <- equals_call config_my_id my_id ;;
          if my_equal then ret (Some (sa_config entry))
          else ret None
      end
    else ret None
  else ret None.

(** [get_sa_config_for_init_config_and_id]. *)
Definition get_sa_config_for_init_config_and_id (init_config_ : init_config_t)
    (other_id : identification_t) (my_id : option identification_t)
    : M (status_t * option sa_config_t) :=
  this <- get_this ;;
  r <- iterate (configurations this) (id_entry_check init_config_ other_id my_id) ;;
  ret (found r).

(** [get_shared_secret]. *)
Definition get_shared_secret (id : identification_t)
    : M (status_t * option chunk_t) :=
  this <- get_this ;;
  r <- iterate (preshared_secrets this) (fun entry =>
         same <- equals_call (identification entry) id ;;
         if same then ret (Some (preshared_secret entry)) else ret None) ;;
  ret (found r).

(** [get_rsa_public_key]. *)
Definition get_rsa_public_key (id : identification_t)
    : M (status_t * option rsa_public_key_t) :=
  this <- get_this ;;
  r <- iterate (rsa_public_keys this) (fun entry =>
         same <- equals_call (public_key_identification entry) id ;;
         if same then ret (Some (public_key entry)) else ret None) ;;
  ret (found r).

(** [get_rsa_private_key]. *)
Definition get_rsa_private_key (id : identification_t)
    : M (status_t * option rsa_private_key_t) :=
  this <- get_this ;;
  r <- iterate (rsa_private_keys this) (fun entry =>
         same <- equals_call (private_key_identification entry) id ;;
         if same then ret (Some (private_key entry)) else ret None) ;;
  ret (found r).

(** *** Assignments to the lists behind [this] *)

Definition with_configurations (l : list configuration_entry_t)
    (this : private_configuration_manager_t) : private_configuration_manager_t :=
  {| configurations := l;
     init_configs := init_configs this;
     sa_configs := sa_configs this;
     preshared_secrets := preshared_secrets this;
     rsa_private_keys := rsa_private_keys this;
     rsa_public_keys := rsa_public_keys this;
     max_retransmit_count := max_retransmit_count this;
     first_retransmit_timeout := first_retransmit_timeout this;
     half_open_ike_sa_timeout := half_open_ike_sa_timeout this |}.

Definition with_init_configs (l : list init_config_t)
    (this : private_configuration_manager_t) : private_configuration_manager_t :=
  {| configurations := configurations this;
     init_configs := l;
     sa_configs := sa_configs this;
     preshared_secrets := preshared_secrets this;
     rsa_private_keys := rsa_private_keys this;
     rsa_public_keys := rsa_public_keys this;
     max_retransmit_count := max_retransmit_count this;
     first_retransmit_timeout := first_retransmit_timeout this;
     half_open_ike_sa_timeout := half_open_ike_sa_timeout this |}.

Definition with_sa_configs (l : list sa_config_t)
    (this : private_configuration_manager_t) : private_configuration_manager_t :=
  {| configurations := configurations this;
     init_configs := init_configs this;
     sa_configs := l;
     preshared_secrets := preshared_secrets this;
     rsa_private_keys := rsa_private_keys this;
     rsa_public_keys := rsa_public_keys this;
     max_retransmit_count := max_retransmit_count this;
     first_retransmit_timeout := first_retransmit_timeout this;
     half_open_ike_sa_timeout := half_open_ike_sa_timeout this |}.

Definition with_preshared_secrets (l : list preshared_secret_entry_t)
    (this : private_configuration_manager_t) : private_configuration_manager_t :=
  {| configurations := configurations this;
     init_configs := init_configs this;
     sa_configs := sa_configs this;
     preshared_secrets := l;
     rsa_private_keys := rsa_private_keys this;
     rsa_public_keys := rsa_public_keys this;
     max_retransmit_count := max_retransmit_count this;
     first_retransmit_timeout := first_retransmit_timeout this;
     half_open_ike_sa_timeout := half_open_ike_sa_timeout this |}.

Definition with_rsa_private_keys (l : list rsa_private_key_entry_t)
    (this : private_configuration_manager_t) : private_configuration_manager_t :=
  {| configurations := configurations this;
     init_configs := init_configs this;
     sa_configs := sa_configs this;
     preshared_secrets := preshared_secrets this;
     rsa_private_keys := l;
     rsa_public_keys := rsa_public_keys this;
     max_retransmit_count := max_retransmit_count this;
     first_retransmit_timeout := first_retransmit_timeout this;
     half_open_ike_sa_timeout := half_open_ike_sa_timeout this |}.

Definition with_rsa_public_keys (l : list rsa_public_key_entry_t)
    (this : private_configuration_manager_t) : private_configuration_manager_t :=
  {| configurations := configurations this;
     init_configs := init_configs this;
     sa_configs := sa_configs this;
     preshared_secrets := preshared_secrets this;
     rsa_private_keys := rsa_private_keys this;
     rsa_public_keys := l;
     max_retransmit_count := max_retransmit_count this;
     first_retransmit_timeout := first_retransmit_timeout this;
     half_open_ike_sa_timeout := half_open_ike_sa_timeout this |}.

(** [insert_first] and [insert_last] of [linked_list_t]. *)
Definition insert_first {A : Type} (l : list A) (x : A) : list A := x :: l.
Definition insert_last {A : Type} (l : list A) (x : A) : list A := l ++ [x].

(** *** Registration *)

(** [add_new_configuration]. *)
Definition add_new_configuration (name_ : string)
    (init_config_ : init_config_t) (sa_config_ : sa_config_t) : M unit :=
  this <- get_this ;;
  found_init <- iterate (init_configs this) (fun found_init_config =>
         if (init_config_addr init_config_ =? init_config_addr found_init_config)%N
         then ret (Some tt) else ret None) ;;
  match found_init with
  | Some _ => ret tt
  | None =>
      this <- get_this ;;
      set_this (with_init_configs (insert_first (init_configs this) init_config_) this)
  end ;;;
  this <- get_this ;;
  found_sa <- iterate (sa_configs this) (fun found_sa_config =>
         if (sa_config_addr sa_config_ =? sa_config_addr found_sa_config)%N
         then ret (Some tt) else ret None) ;;
  match found_sa with
  | Some _ => ret tt
  | None =>
      this <- get_this ;;
      set_this (with_sa_configs (insert_first (sa_configs this) sa_config_) this)
  end ;;;
  this <- get_this ;;
  set_this (with_configurations
              (insert_last (configurations this)
                 (configuration_entry_create name_ init_config_ sa_config_)) this).

(** [add_new_preshared_secret]. *)
Definition add_new_preshared_secret (type : id_type_t) (id_string : string)
    (preshared_secret_ : string) : M unit :=
  let len := (strlen preshared_secret_ + 1)%nat in
  let entry :=
    {| identification := identification_create_from_string type id_string;
       preshared_secret := memcpy (buffer preshared_secret_) len |} in
  this <- get_this ;;
  set_this (with_preshared_secrets (insert_last (preshared_secrets this) entry) this).

(** [add_new_rsa_public_key]; [key] is the chunk of [key_len] bytes at
    [key_pos]. *)
Definition add_new_rsa_public_key (type : id_type_t) (id_string : string)
    (key : chunk_t) : M unit :=
  let entry :=
    {| public_key_identification := identification_create_from_string type id_string;
       public_key := rsa_public_key_set_key key |} in
  this <- get_this ;;
  set_this (with_rsa_public_keys (insert_last (rsa_public_keys this) entry) this).

(** [add_new_rsa_private_key]; [key] is the chunk of [key_len] bytes at
    [key_pos]. *)
Definition add_new_rsa_private_key (type : id_type_t) (id_string : string)
    (key : chunk_t) : M unit :=
  let entry :=
    {| private_key_identification := identification_create_from_string type id_string;
       private_key := rsa_private_key_set_key key |} in
  this <- get_this ;;
  set_this (with_rsa_private_keys (insert_last (rsa_private_keys this) entry) this).

(** *** Timing *)

(** The loop of [get_retransmit_timeout]: [i] and [new_timeout] are
    [int], and [i < retransmit_count] compares as [u_int32_t]. *)
Equations? retransmit_loop (retransmit_count i new_timeout : Z) : Z
  by wf (Z.to_nat (u32 retransmit_count - u32 i)) lt :=
retransmit_loop retransmit_count i new_timeout
  with Z_lt_dec (u32 i) (u32 retransmit_count) => {
  | left _ => retransmit_loop retransmit_count (s32 (i + 1)) (s32 (new_timeout * 2));
  | right _ => new_timeout }.
Proof.
  pose proof (u32_range retransmit_count) as Hr.
  rewrite u32_succ by lia. lia.
Qed.

(** [get_retransmit_timeout]. *)
Definition get_retransmit_timeout (retransmit_count : Z)
    : M (status_t * option Z) :=
  this <- get_this ;;
  let new_timeout := s32 (first_retransmit_timeout this) in
  if (u32 retransmit_count >? max_retransmit_count this)%Z
     && negb (max_retransmit_count this =? 0)%Z
  then ret (FAILED, None)
  else ret (SUCCESS, Some (u32 (retransmit_loop retransmit_count 0 new_timeout))).

(** [get_half_open_ike_sa_timeout]. *)
Definition get_half_open_ike_sa_timeout : M Z :=
  this <- get_this ;;
  ret (half_open_ike_sa_timeout this).

(** *** Teardown *)

(** [while (list->get_count(list) > 0) { list->remove_first(list, &x);
    body }]: [store] assigns what is left of the list. *)
Fixpoint drain {A : Type} (l : list A)
    (store : list A -> private_configuration_manager_t -> private_configuration_manager_t)
    (body : A -> M unit) : M unit :=
  match l with
  | [] => ret tt
  | x :: rest =>
      this <- get_this ;;
      set_this (store rest this) ;;;
      body x ;;;
      drain rest store body
  end.

(** [configuration_entry_destroy]. *)
Definition configuration_entry_destroy (this : configuration_entry_t) : M unit :=
  perform (call_allocator_free (freed_name (name this))) ;;;
  perform (call_allocator_free (freed_configuration_entry this)).

(** [list->destroy(list)], for the list as it is at that moment. *)
Definition linked_list_destroy {A : Type} (which : linked_list)
    (elements : private_configuration_manager_t -> list A) : M unit :=
  this <- get_this ;;
  perform (call_linked_list_destroy which (List.length (elements this))).

(** [destroy].  It ends with [allocator_free(this)]: the object the
    computation returns is what the freed memory held last, and no
    method can be run on it. *)
Definition destroy : M unit :=
  this <- get_this ;;
  drain (configurations this) with_configurations (fun entry =>
    configuration_entry_destroy entry) ;;;
  linked_list_destroy configurations_list configurations ;;;
  this <- get_this ;;
  drain (sa_configs this) with_sa_configs (fun sa_config =>
    perform (call_sa_config_destroy sa_config)) ;;;
  linked_list_destroy sa_configs_list sa_configs ;;;
  this <- get_this ;;
  drain (init_configs this) with_init_configs (fun init_config =>
    perform (call_init_config_destroy init_config)) ;;;
  linked_list_destroy init_configs_list init_configs ;;;
  this <- get_this ;;
  drain (preshared_secrets this) with_preshared_secrets (fun entry =>
    perform (call_identification_destroy (identification entry)) ;;;
    perform (call_allocator_free_chunk (preshared_secret entry)) ;;;
    perform (call_allocator_free (freed_preshared_secret_entry entry))) ;;;
  linked_list_destroy preshared_secrets_list preshared_secrets ;;;
  this <- get_this ;;
  drain (rsa_private_keys this) with_rsa_private_keys (fun entry =>
    perform (call_identification_destroy (private_key_identification entry)) ;;;
    perform (call_rsa_private_key_destroy (private_key entry)) ;;;
    perform (call_allocator_free (freed_rsa_private_key_entry entry))) ;;;
  linked_list_destroy rsa_private_keys_list rsa_private_keys ;;;
  this <- get_this ;;
  drain (rsa_public_keys this) with_rsa_public_keys (fun entry =>
    perform (call_identification_destroy (public_key_identification entry)) ;;;
    perform (call_rsa_public_key_destroy (public_key entry)) ;;;
    perform (call_allocator_free (freed_rsa_public_key_entry entry))) ;;;
  linked_list_destroy rsa_public_keys_list rsa_public_keys ;;;
  perform call_destroy_logger ;;;
  perform (call_allocator_free freed_this).

(** *** Construction *)

(** [load_default_config]; [init_config] and [sa_config] are the objects
    [init_config_create] and [sa_config_create] return, [public_key_1]
    and [private_key_1] the first 256 and 1024 bytes of the key tables. *)
Definition load_default_config (init_config : init_config_t)
    (sa_config : sa_config_t) (public_key_1 private_key_1 : chunk_t) : M unit :=
  add_new_configuration "localhost" init_config sa_config ;;;
  add_new_rsa_public_key ID_IPV4_ADDR "127.0.0.1" public_key_1 ;;;
  add_new_rsa_private_key ID_IPV4_ADDR "127.0.0.1" private_key_1.

(** The object of [configuration_manager_create] before the default
    configuration is loaded: six empty lists and the timing values. *)
Definition empty_manager (first_retransmit_timeout max_retransmit_count
    half_open_ike_sa_timeout : Z) : private_configuration_manager_t :=
  {| configurations := [];
     init_configs := [];
     sa_configs := [];
     preshared_secrets := [];
     rsa_private_keys := [];
     rsa_public_keys := [];
     max_retransmit_count := u32 max_retransmit_count;
     first_retransmit_timeout := u32 first_retransmit_timeout;
     half_open_ike_sa_timeout := u32 half_open_ike_sa_timeout |}.

(** [configuration_manager_create]. *)
Definition configuration_manager_create (first_retransmit_timeout
    max_retransmit_count half_open_ike_sa_timeout : Z)
    (init_config : init_config_t) (sa_config : sa_config_t)
    (public_key_1 private_key_1 : chunk_t) : private_configuration_manager_t :=
  final (load_default_config init_config sa_config public_key_1 private_key_1)
    (empty_manager first_retransmit_timeout max_retransmit_count
       half_open_ike_sa_timeout).

(** A call of one of the four registration methods. *)
Inductive registration : Type :=
| new_configuration (name : string) (init_config : init_config_t)
    (sa_config : sa_config_t)
| new_preshared_secret (type : id_type_t) (id_string preshared_secret : string)
| new_rsa_public_key (type : id_type_t) (id_string : string) (key : chunk_t)
| new_rsa_private_key (type : id_type_t) (id_string : string) (key : chunk_t).

Definition register (r : registration) : M unit :=
  match r with
  | new_configuration n i s => add_new_configuration n i s
  | new_preshared_secret t i s => add_new_preshared_secret t i s
  | new_rsa_public_key t i k => add_new_rsa_public_key t i k
  | new_rsa_private_key t i k => add_new_rsa_private_key t i k
  end.

(** A sequence of registrations, in order. *)
Fixpoint register_all (rs : list registration) : M unit :=
  match rs with
  | [] => ret tt
  | r :: rest => register r ;;; register_all rest
  end.

(** ** Notions the properties are stated with *)

(** First element of a list a test accepts, with the status the lookups
    report. *)
Definition first_match {A R : Type} (accepts : A -> bool) (select : A -> R)
    (l : list A) : status_t * option R :=
  match find accepts l with
  | Some entry => (SUCCESS, Some (select entry))
  | None => (NOT_FOUND, None)
  end.

(** An entry matches the observed hosts when (a) its remote host has the
    observed remote address and its local host is the default route or
    has the observed local address, or (b) its remote host is the default
    route and its local host is the default route or has the observed
    local address. *)
Definition host_entry_matches (my_host other_host : host_t)
    (entry : configuration_entry_t) : bool :=
  let config_my_host := get_my_host (init_config entry) in
  let config_other_host := get_other_host (init_config entry) in
  (ip_is_equal config_other_host other_host
   && (is_default_route config_my_host || ip_is_equal config_my_host my_host))
  || (is_default_route config_other_host
      && (is_default_route config_my_host || ip_is_equal config_my_host my_host)).

(** An entry matches a name when the two are the same C string. *)
Definition name_entry_matches (name_ : string) (entry : configuration_entry_t)
    : bool :=
  String.eqb (strcpy (name entry)) (strcpy name_).

(** An entry matches on the remote identity when it refers to the given
    [init_config_t] object and the remote identity of its [sa_config_t]
    equals the given one. *)
Definition remote_id_entry_matches (init_config_ : init_config_t)
    (other_id : identification_t) (entry : configuration_entry_t) : bool :=
  (init_config_addr (init_config entry) =? init_config_addr init_config_)%N
  && equals (get_other_id (sa_config entry)) other_id.

(** An entry matches on both identities when it matches on the remote
    one and the local identity of its [sa_config_t] equals the given
    one. *)
Definition both_ids_entry_matches (init_config_ : init_config_t)
    (other_id my_id : identification_t) (entry : configuration_entry_t) : bool :=
  remote_id_entry_matches init_config_ other_id entry
  && equals (get_my_id (sa_config entry)) my_id.

(** A computation that only reads: it leaves the object as it was. *)
Definition read_only {A : Type} (m : M A) : Prop :=
  forall this, final m this = this.

(** A list of owned objects after one more object is handed over: the
    object goes in front unless its address is in the list already. *)
Definition own {A : Type} (addr : A -> pointer) (x : A) (l : list A) : list A :=
  if existsb (fun y => (addr x =? addr y)%N) l then l else x :: l.

(** The addresses of the objects whose destructor a list of calls runs. *)
Definition init_config_destroys (cs : list call) : list pointer :=
  flat_map (fun c =>
    match c with
    | call_init_config_destroy c => [init_config_addr c]
    | _ => []
    end) cs.

Definition sa_config_destroys (cs : list call) : list pointer :=
  flat_map (fun c =>
    match c with
    | call_sa_config_destroy c => [sa_config_addr c]
    | _ => []
    end) cs.

(** How often an address occurs in a list of addresses. *)
Definition occurrences (p : pointer) (l : list pointer) : nat :=
  count_occ N.eq_dec l p.

(** Whether some configuration entry refers to the object at an address. *)
Definition init_config_referenced (p : pointer)
    (this : private_configuration_manager_t) : bool :=
  existsb (fun entry => (init_config_addr (init_config entry) =? p)%N)
    (configurations this).

Definition sa_config_referenced (p : pointer)
    (this : private_configuration_manager_t) : bool :=
  existsb (fun entry => (sa_config_addr (sa_config entry) =? p)%N)
    (configurations this).

(** Each owned object is owned once, and the owned objects are the
    referenced ones. *)
Definition ownership (this : private_configuration_manager_t) : Prop :=
  (forall p, occurrences p (map init_config_addr (init_configs this))
             = if init_config_referenced p this then 1 else 0)
  /\ (forall p, occurrences p (map sa_config_addr (sa_configs this))
                = if sa_config_referenced p this then 1 else 0).

(** The object after a list is drained. *)
Fixpoint drained {A : Type} (l : list A)
    (store : list A -> private_configuration_manager_t -> private_configuration_manager_t)
    (this : private_configuration_manager_t) : private_configuration_manager_t :=
  match l with
  | [] => this
  | _ :: rest => drained rest store (store rest this)
  end.

(** ** Laws of the monad *)

Lemma result_ret {A : Type} (a : A) this : result (ret a) this = a.
Proof. reflexivity. Qed.

Lemma final_ret {A : Type} (a : A) this : final (ret a) this = this.
Proof. reflexivity. Qed.


Lemma result_bind {A B : Type} (m : M A) (k : A -> M B) this :
  result (bind m k) this = result (k (result m this)) (final m this).
Proof.
  unfold result, final, bind.
  destruct (m this) as [[a this'] c]; simpl.
  destruct (k a this') as [[b this''] c']; reflexivity.
Qed.

Lemma final_bind {A B : Type} (m : M A) (k : A -> M B) this :
  final (bind m k) this = final (k (result m this)) (final m this).
Proof.
  unfold result, final, bind.
  destruct (m this) as [[a this'] c]; simpl.
  destruct (k a this') as [[b this''] c']; reflexivity.
Qed.

Lemma calls_bind {A B : Type} (m : M A) (k : A -> M B) this :
  calls (bind m k) this
  = calls m this ++ calls (k (result m this)) (final m this).
Proof.
  unfold result, final, calls, bind.
  destruct (m this) as [[a this'] c]; simpl.
  destruct (k a this') as [[b this''] c']; reflexivity.
Qed.

Lemma read_only_ret {A : Type} (a : A) : read_only (ret a).
Proof. intros this. reflexivity. Qed.

Lemma read_only_get_this : read_only get_this.
Proof. intros this. reflexivity. Qed.

Lemma read_only_bind {A B : Type} (m : M A) (k : A -> M B) :
  read_only m -> (forall a, read_only (k a)) -> read_only (bind m k).
Proof.
  intros Hm Hk this. rewrite final_bind, Hk. apply Hm.
Qed.

Lemma read_only_ip_is_equal_call role h h' : read_only (ip_is_equal_call role h h').
Proof. intros this. reflexivity. Qed.

Lemma read_only_is_default_route_call role h : read_only (is_default_route_call role h).
Proof. intros this. reflexivity. Qed.

Lemma read_only_equals_call i j : read_only (equals_call i j).
Proof. intros this. reflexivity. Qed.

Lemma read_only_if {A : Type} (b : bool) (m1 m2 : M A) :
  read_only m1 -> read_only m2 -> read_only (if b then m1 else m2).
Proof. destruct b; auto. Qed.

Lemma read_only_iterate {A R : Type} (l : list A) (body : A -> M (option R)) :
  (forall entry, read_only (body entry)) -> read_only (iterate l body).
Proof.
  intros Hbody. induction l as [|entry rest IH]; simpl.
  - apply read_only_ret.
  - apply read_only_bind; [apply Hbody|].
    intros [v|]; [apply read_only_ret | exact IH].
Qed.

Create HintDb read_only.
#[local] Hint Resolve read_only_ret read_only_get_this read_only_ip_is_equal_call
  read_only_is_default_route_call read_only_equals_call : read_only.

Ltac read_only_tac :=
  repeat first
    [ apply read_only_bind; [| intros ?]
    | apply read_only_iterate; intros ?
    | apply read_only_if
    | match goal with |- read_only (match ?x with _ => _ end) => destruct x end
    | solve [auto with read_only] ].

Lemma read_only_host_entry_check my_host other_host entry :
  read_only (host_entry_check my_host other_host entry).
Proof. unfold host_entry_check. read_only_tac. Qed.

Lemma read_only_id_entry_check ic other_id my_id entry :
  read_only (id_entry_check ic other_id my_id entry).
Proof. unfold id_entry_check. read_only_tac. Qed.

Lemma read_only_get_init_config_for_host my_host other_host :
  read_only (get_init_config_for_host my_host other_host).
Proof.
  unfold get_init_config_for_host. read_only_tac.
Qed.

Lemma read_only_get_init_config_for_name name_ :
  read_only (get_init_config_for_name name_).
Proof. unfold get_init_config_for_name. read_only_tac. Qed.

Lemma read_only_get_sa_config_for_name name_ :
  read_only (get_sa_config_for_name name_).
Proof. unfold get_sa_config_for_name. read_only_tac. Qed.

Lemma read_only_get_sa_config_for_init_config_and_id ic other_id my_id :
  read_only (get_sa_config_for_init_config_and_id ic other_id my_id).
Proof.
  unfold get_sa_config_for_init_config_and_id. read_only_tac.
Qed.

Lemma read_only_get_shared_secret id : read_only (get_shared_secret id).
Proof. unfold get_shared_secret. read_only_tac. Qed.

Lemma read_only_get_rsa_public_key id : read_only (get_rsa_public_key id).
Proof. unfold get_rsa_public_key. read_only_tac. Qed.

Lemma read_only_get_rsa_private_key id : read_only (get_rsa_private_key id).
Proof. unfold get_rsa_private_key. read_only_tac. Qed.

Lemma read_only_get_retransmit_timeout retransmit_count :
  read_only (get_retransmit_timeout retransmit_count).
Proof. unfold get_retransmit_timeout. read_only_tac. Qed.

Lemma read_only_get_half_open_ike_sa_timeout :
  read_only get_half_open_ike_sa_timeout.
Proof. unfold get_half_open_ike_sa_timeout. read_only_tac. Qed.

(** ** The loops compute first matches *)

Lemma iterate_first_match {A R : Type} (accepts : A -> bool) (select : A -> R)
    (body : A -> M (option R)) (l : list A) :
  (forall entry, read_only (body entry)) ->
  (forall entry this,
      result (body entry) this
      = if accepts entry then Some (select entry) else None) ->
  forall this, found (result (iterate l body) this) = first_match accepts select l.
Proof.
  intros Hro Hbody. unfold first_match.
  induction l as [|entry rest IH]; intros this; simpl.
  - reflexivity.
  - rewrite result_bind, Hbody, Hro.
    destruct (accepts entry); [reflexivity | apply IH].
Qed.

(** The calls of a loop whose body falls through on the first element. *)
Lemma iterate_fall_through {A R : Type} (body : A -> M (option R))
    (entry : A) (rest : list A) this :
  read_only (body entry) ->
  result (body entry) this = None ->
  result (iterate (entry :: rest) body) this = result (iterate rest body) this
  /\ calls (iterate (entry :: rest) body) this
     = calls (body entry) this ++ calls (iterate rest body) this.
Proof.
  intros Hro Hnone. simpl.
  rewrite result_bind, calls_bind, Hnone, Hro. split; reflexivity.
Qed.

Lemma host_entry_check_result my_host other_host entry this :
  result (host_entry_check my_host other_host entry) this
  = if host_entry_matches my_host other_host entry
    then Some (init_config entry) else None.
Proof.
  unfold host_entry_check, host_entry_matches, result, bind,
    ip_is_equal_call, is_default_route_call, ret; simpl.
  destruct (ip_is_equal (get_other_host (init_config entry)) other_host); simpl;
    destruct (is_default_route (get_my_host (init_config entry))); simpl;
    destruct (is_default_route (get_other_host (init_config entry))); simpl;
    try reflexivity;
    destruct (ip_is_equal (get_my_host (init_config entry)) my_host); reflexivity.
Qed.

Lemma id_entry_check_result_none ic other_id entry this :
  result (id_entry_check ic other_id None entry) this
  = if remote_id_entry_matches ic other_id entry
    then Some (sa_config entry) else None.
Proof.
  unfold id_entry_check, remote_id_entry_matches, result, bind, equals_call, ret.
  destruct (init_config_addr (init_config entry) =? init_config_addr ic)%N; simpl;
    [|reflexivity].
  destruct (equals (get_other_id (sa_config entry)) other_id); reflexivity.
Qed.

Lemma id_entry_check_result_some ic other_id my_id entry this :
  result (id_entry_check ic other_id (Some my_id) entry) this
  = if both_ids_entry_matches ic other_id my_id entry
    then Some (sa_config entry) else None.
Proof.
  unfold id_entry_check, both_ids_entry_matches, remote_id_entry_matches,
    result, bind, equals_call, ret.
  destruct (init_config_addr (init_config entry) =? init_config_addr ic)%N; simpl;
    [|reflexivity].
  destruct (equals (get_other_id (sa_config entry)) other_id); simpl;
    [|reflexivity].
  destruct (equals (get_my_id (sa_config entry)) my_id); reflexivity.
Qed.

Lemma strcmp_eqb a b : (strcmp a b =? 0)%Z = String.eqb (strcpy a) (strcpy b).
Proof.
  destruct (String.eqb_spec (strcpy a) (strcpy b)) as [Heq|Hne].
  - apply Z.eqb_eq, strcmp_eq_0, Heq.
  - apply Z.eqb_neq. intros H. apply Hne, strcmp_eq_0, H.
Qed.

Lemma get_init_config_for_host_first_match my_host other_host this :
  result (get_init_config_for_host my_host other_host) this
  = first_match (host_entry_matches my_host other_host) init_config
      (configurations this).
Proof.
  unfold get_init_config_for_host.
  rewrite result_bind, result_bind, result_ret.
  apply iterate_first_match.
  - intros entry. apply read_only_host_entry_check.
  - intros entry s. apply host_entry_check_result.
Qed.

Lemma get_init_config_for_name_first_match name_ this :
  result (get_init_config_for_name name_) this
  = first_match (name_entry_matches name_) init_config (configurations this).
Proof.
  unfold get_init_config_for_name.
  rewrite result_bind, result_bind, result_ret.
  apply iterate_first_match.
  - intros entry. read_only_tac.
  - intros entry s. unfold name_entry_matches. rewrite strcmp_eqb.
    destruct (String.eqb _ _); reflexivity.
Qed.

Lemma get_sa_config_for_name_first_match name_ this :
  result (get_sa_config_for_name name_) this
  = first_match (name_entry_matches name_) sa_config (configurations this).
Proof.
  unfold get_sa_config_for_name.
  rewrite result_bind, result_bind, result_ret.
  apply iterate_first_match.
  - intros entry. read_only_tac.
  - intros entry s. unfold name_entry_matches. rewrite strcmp_eqb.
    destruct (String.eqb _ _); reflexivity.
Qed.

Lemma get_sa_config_for_id_first_match_none ic other_id this :
  result (get_sa_config_for_init_config_and_id ic other_id None) this
  = first_match (remote_id_entry_matches ic other_id) sa_config
      (configurations this).
Proof.
  unfold get_sa_config_for_init_config_and_id.
  rewrite result_bind, result_bind, result_ret.
  apply iterate_first_match.
  - intros entry. apply read_only_id_entry_check.
  - intros entry s. apply id_entry_check_result_none.
Qed.

Lemma get_sa_config_for_id_first_match_some ic other_id my_id this :
  result (get_sa_config_for_init_config_and_id ic other_id (Some my_id)) this
  = first_match (both_ids_entry_matches ic other_id my_id) sa_config
      (configurations this).
Proof.
  unfold get_sa_config_for_init_config_and_id.
  rewrite result_bind, result_bind, result_ret.
  apply iterate_first_match.
  - intros entry. apply read_only_id_entry_check.
  - intros entry s. apply id_entry_check_result_some.
Qed.

Lemma get_shared_secret_first_match id this :
  result (get_shared_secret id) this
  = first_match (fun entry => equals (identification entry) id)
      preshared_secret (preshared_secrets this).
Proof.
  unfold get_shared_secret.
  rewrite result_bind, result_bind, result_ret.
  apply iterate_first_match.
  - intros entry. read_only_tac.
  - intros entry s. unfold result, bind, equals_call, ret.
    destruct (equals (identification entry) id); reflexivity.
Qed.

(** First matches, read off the list. *)
Lemma first_match_found {A R : Type} (accepts : A -> bool) (select : A -> R)
    (before : list A) (entry : A) (after : list A) :
  (forall e, In e before -> accepts e = false) ->
  accepts entry = true ->
  first_match accepts select (before ++ entry :: after)
  = (SUCCESS, Some (select entry)).
Proof.
  intros Hbefore Hentry. unfold first_match.
  induction before as [|e before IH]; simpl.
  - now rewrite Hentry.
  - rewrite (Hbefore e) by now left.
    apply IH. intros e' He'. apply Hbefore. now right.
Qed.

Lemma first_match_not_found {A R : Type} (accepts : A -> bool) (select : A -> R)
    (l : list A) :
  (forall e, In e l -> accepts e = false) <->
  first_match accepts select l = (NOT_FOUND, None).
Proof.
  unfold first_match. split.
  - intros Hnone. destruct (find accepts l) as [e|] eqn:Hfind; [|reflexivity].
    apply find_some in Hfind as [Hin Hacc].
    rewrite (Hnone e Hin) in Hacc. discriminate.
  - intros Hres e Hin. destruct (find accepts l) as [e'|] eqn:Hfind; [discriminate|].
    apply (find_none _ _ Hfind e Hin).
Qed.

Lemma first_match_skip {A R : Type} (accepts : A -> bool) (select : A -> R)
    (entry : A) (rest : list A) :
  accepts entry = false ->
  first_match accepts select (entry :: rest) = first_match accepts select rest.
Proof. intros H. unfold first_match. simpl. now rewrite H. Qed.

(** ** The retransmit loop doubles once per attempt *)

Lemma u32_s32_mul a b : u32 (s32 a * b) = u32 (a * b).
Proof.
  unfold u32 at 1. rewrite <- Z.mul_mod_idemp_l by (unfold modulus; lia).
  fold (u32 (s32 a)). rewrite u32_s32. unfold u32.
  apply Z.mul_mod_idemp_l. unfold modulus; lia.
Qed.

Lemma retransmit_loop_doubles retransmit_count i new_timeout :
  (u32 i <= u32 retransmit_count)%Z ->
  u32 (retransmit_loop retransmit_count i new_timeout)
  = u32 (new_timeout * 2 ^ (u32 retransmit_count - u32 i)).
Proof.
  funelim (retransmit_loop retransmit_count i new_timeout); intros Hle.
  - pose proof (u32_range retransmit_count) as Hr.
    assert (Hsucc : u32 (s32 (i + 1)) = (u32 i + 1)%Z) by (apply u32_succ; lia).
    match goal with
    | IH : _ -> u32 (retransmit_loop _ _ _) = _ |- _ => rewrite IH by lia
    end.
    rewrite Hsucc, u32_s32_mul.
    replace (u32 retransmit_count - u32 i)%Z
      with (1 + (u32 retransmit_count - (u32 i + 1)))%Z by lia.
    rewrite (Z.pow_add_r 2 1) by lia.
    f_equal. change (2 ^ 1)%Z with 2%Z. ring.
  - replace (u32 retransmit_count - u32 i)%Z with 0%Z by lia.
    f_equal. change (2 ^ 0)%Z with 1%Z. ring.
Qed.

Lemma get_retransmit_timeout_result retransmit_count this :
  result (get_retransmit_timeout retransmit_count) this
  = if (u32 retransmit_count >? max_retransmit_count this)%Z
       && negb (max_retransmit_count this =? 0)%Z
    then (FAILED, None)
    else (SUCCESS,
          Some (u32 (first_retransmit_timeout this * 2 ^ u32 retransmit_count))).
Proof.
  unfold get_retransmit_timeout. rewrite result_bind.
  change (result get_this this) with this.
  change (final get_this this) with this.
  destruct ((u32 retransmit_count >? max_retransmit_count this)%Z
            && negb (max_retransmit_count this =? 0)%Z); [reflexivity|].
  rewrite result_ret. do 2 f_equal.
  pose proof (u32_range retransmit_count) as Hr.
  rewrite retransmit_loop_doubles by (change (u32 0) with 0%Z; lia).
  change (u32 0) with 0%Z. rewrite Z.sub_0_r. apply u32_s32_mul.
Qed.

(** ** Ownership of the policy objects *)

Lemma iterate_scan {A : Type} (p : A -> bool) (l : list A) this :
  iterate l (fun x => if p x then ret (Some tt) else ret None) this
  = (if existsb p l then Some tt else None, this, []).
Proof.
  induction l as [|x rest IH]; simpl; [reflexivity|].
  unfold bind. destruct (p x); simpl; [reflexivity|].
  rewrite IH. reflexivity.
Qed.

Lemma final_add_new_configuration name_ ic sc this :
  final (add_new_configuration name_ ic sc) this
  = {| configurations :=
         configurations this ++ [configuration_entry_create name_ ic sc];
       init_configs := own init_config_addr ic (init_configs this);
       sa_configs := own sa_config_addr sc (sa_configs this);
       preshared_secrets := preshared_secrets this;
       rsa_private_keys := rsa_private_keys this;
       rsa_public_keys := rsa_public_keys this;
       max_retransmit_count := max_retransmit_count this;
       first_retransmit_timeout := first_retransmit_timeout this;
       half_open_ike_sa_timeout := half_open_ike_sa_timeout this |}.
Proof.
  unfold add_new_configuration, own, final, bind, get_this.
  rewrite (iterate_scan (fun y => (init_config_addr ic =? init_config_addr y)%N)).
  destruct (existsb _ (init_configs this)); simpl;
    rewrite (iterate_scan (fun y => (sa_config_addr sc =? sa_config_addr y)%N));
    destruct (existsb _ (sa_configs this)); reflexivity.
Qed.

(** Registration appends: the list of configuration entries is in the
    order of registration. *)
Lemma configurations_add_new_configuration name_ ic sc this :
  configurations (final (add_new_configuration name_ ic sc) this)
  = configurations this ++ [configuration_entry_create name_ ic sc].
Proof. rewrite final_add_new_configuration. reflexivity. Qed.

Lemma existsb_addr_occurrences {A : Type} (addr : A -> pointer) (p : pointer)
    (l : list A) :
  existsb (fun y => (p =? addr y)%N) l
  = negb (occurrences p (map addr l) =? 0)%nat.
Proof.
  unfold occurrences. induction l as [|y rest IH]; simpl; [reflexivity|].
  destruct (N.eq_dec (addr y) p) as [Heq|Hne].
  - rewrite Heq, N.eqb_refl. reflexivity.
  - destruct (N.eqb_spec p (addr y)); [congruence | exact IH].
Qed.

Lemma own_occurrences {A : Type} (addr : A -> pointer) (x : A) (l : list A)
    (p : pointer) :
  occurrences p (map addr (own addr x l))
  = if (addr x =? p)%N
    then (if (occurrences p (map addr l) =? 0)%nat then 1
          else occurrences p (map addr l))
    else occurrences p (map addr l).
Proof.
  unfold own. rewrite existsb_addr_occurrences.
  destruct (N.eqb_spec (addr x) p) as [Heq|Hne].
  - subst p.
    destruct (occurrences (addr x) (map addr l) =? 0)%nat eqn:Hocc; simpl.
    + unfold occurrences in *. simpl.
      destruct (N.eq_dec (addr x) (addr x)); [|congruence].
      apply Nat.eqb_eq in Hocc. now rewrite Hocc.
    + reflexivity.
  - destruct (negb _); [reflexivity|].
    unfold occurrences. simpl.
    destruct (N.eq_dec (addr x) p); [contradiction | reflexivity].
Qed.

Lemma ownership_empty_manager a b c : ownership (empty_manager a b c).
Proof. split; intros p; reflexivity. Qed.

Lemma ownership_add_new_configuration name_ ic sc this :
  ownership this -> ownership (final (add_new_configuration name_ ic sc) this).
Proof.
  intros [Hinit Hsa]. rewrite final_add_new_configuration.
  unfold ownership, init_config_referenced, sa_config_referenced in *; simpl.
  split; intros p; rewrite own_occurrences, existsb_app; simpl;
    rewrite orb_false_r.
  - rewrite Hinit.
    destruct (init_config_addr ic =? p)%N;
      destruct (existsb _ (configurations this)); reflexivity.
  - rewrite Hsa.
    destruct (sa_config_addr sc =? p)%N;
      destruct (existsb _ (configurations this)); reflexivity.
Qed.

Lemma ownership_register r this :
  ownership this -> ownership (final (register r) this).
Proof.
  destruct r; simpl.
  - apply ownership_add_new_configuration.
  - intros H; exact H.
  - intros H; exact H.
  - intros H; exact H.
Qed.

Lemma ownership_register_all rs this :
  ownership this -> ownership (final (register_all rs) this).
Proof.
  revert this. induction rs as [|r rest IH]; intros this H; simpl.
  - exact H.
  - rewrite final_bind. apply IH, ownership_register, H.
Qed.

(** ** The calls of the destructor *)

Lemma drain_run {A : Type} (l : list A) store (body : A -> M unit)
    (body_calls : A -> list call) :
  (forall x this, body x this = (tt, this, body_calls x)) ->
  forall this,
    drain l store body this = (tt, drained l store this, flat_map body_calls l).
Proof.
  intros Hbody. induction l as [|x rest IH]; intros this; simpl.
  - reflexivity.
  - unfold bind at 1 2 3. simpl. rewrite Hbody, IH. reflexivity.
Qed.

Lemma drained_frame {A B : Type} (proj : private_configuration_manager_t -> B)
    (l : list A) store :
  (forall l' this, proj (store l' this) = proj this) ->
  forall this, proj (drained l store this) = proj this.
Proof.
  intros Hframe. induction l as [|x rest IH]; intros this; simpl.
  - reflexivity.
  - rewrite IH. apply Hframe.
Qed.

Lemma drained_own {A : Type}
    (proj : private_configuration_manager_t -> list A) store :
  (forall l' this, proj (store l' this) = l') ->
  forall this, proj (drained (proj this) store this) = [].
Proof.
  intros Hstore this. remember (proj this) as l eqn:Hl. symmetry in Hl.
  revert this Hl. induction l as [|x rest IH]; intros this Hl; simpl.
  - exact Hl.
  - apply IH. apply Hstore.
Qed.

Lemma calls_drain {A : Type} (l : list A) store (body : A -> M unit)
    (body_calls : A -> list call) :
  (forall x this, body x this = (tt, this, body_calls x)) ->
  forall this, calls (drain l store body) this = flat_map body_calls l.
Proof.
  intros Hbody this. unfold calls. now rewrite (drain_run l store body body_calls).
Qed.

Lemma final_drain {A : Type} (l : list A) store (body : A -> M unit)
    (body_calls : A -> list call) :
  (forall x this, body x this = (tt, this, body_calls x)) ->
  forall this, final (drain l store body) this = drained l store this.
Proof.
  intros Hbody this. unfold final. now rewrite (drain_run l store body body_calls).
Qed.

Lemma result_get_this this : result get_this this = this.
Proof. reflexivity. Qed.

Lemma final_get_this this : final get_this this = this.
Proof. reflexivity. Qed.

Lemma calls_get_this this : calls get_this this = [].
Proof. reflexivity. Qed.

Lemma final_perform c this : final (perform c) this = this.
Proof. reflexivity. Qed.

Lemma calls_perform c this : calls (perform c) this = [c].
Proof. reflexivity. Qed.

(** The calls of [destroy], list by list; each list is empty when its
    own [destroy] is called. *)
Lemma calls_destroy this :
  calls destroy this
  = flat_map (fun entry =>
      [call_allocator_free (freed_name (name entry));
       call_allocator_free (freed_configuration_entry entry)])
      (configurations this)
    ++ [call_linked_list_destroy configurations_list 0]
    ++ flat_map (fun c => [call_sa_config_destroy c]) (sa_configs this)
    ++ [call_linked_list_destroy sa_configs_list 0]
    ++ flat_map (fun c => [call_init_config_destroy c]) (init_configs this)
    ++ [call_linked_list_destroy init_configs_list 0]
    ++ flat_map (fun entry =>
         [call_identification_destroy (identification entry);
          call_allocator_free_chunk (preshared_secret entry);
          call_allocator_free (freed_preshared_secret_entry entry)])
         (preshared_secrets this)
    ++ [call_linked_list_destroy preshared_secrets_list 0]
    ++ flat_map (fun entry =>
         [call_identification_destroy (private_key_identification entry);
          call_rsa_private_key_destroy (private_key entry);
          call_allocator_free (freed_rsa_private_key_entry entry)])
         (rsa_private_keys this)
    ++ [call_linked_list_destroy rsa_private_keys_list 0]
    ++ flat_map (fun entry =>
         [call_identification_destroy (public_key_identification entry);
          call_rsa_public_key_destroy (public_key entry);
          call_allocator_free (freed_rsa_public_key_entry entry)])
         (rsa_public_keys this)
    ++ [call_linked_list_destroy rsa_public_keys_list 0]
    ++ [call_destroy_logger; call_allocator_free freed_this].
Proof.
  unfold destroy, linked_list_destroy.
  repeat first
    [ rewrite calls_bind | rewrite final_bind | rewrite result_bind
    | rewrite result_get_this | rewrite final_get_this | rewrite calls_get_this
    | rewrite final_perform | rewrite calls_perform
    | erewrite calls_drain by (intros; reflexivity)
    | erewrite final_drain by (intros; reflexivity) ].
  rewrite (drained_own configurations with_configurations) by reflexivity.
  rewrite (drained_own sa_configs with_sa_configs) by reflexivity.
  rewrite (drained_own init_configs with_init_configs) by reflexivity.
  rewrite (drained_own preshared_secrets with_preshared_secrets) by reflexivity.
  rewrite (drained_own rsa_private_keys with_rsa_private_keys) by reflexivity.
  rewrite (drained_own rsa_public_keys with_rsa_public_keys) by reflexivity.
  repeat first
    [ rewrite (drained_frame sa_configs) by reflexivity
    | rewrite (drained_frame init_configs) by reflexivity
    | rewrite (drained_frame preshared_secrets) by reflexivity
    | rewrite (drained_frame rsa_private_keys) by reflexivity
    | rewrite (drained_frame rsa_public_keys) by reflexivity ].
  reflexivity.
Qed.

Lemma init_config_destroys_app cs cs' :
  init_config_destroys (cs ++ cs')
  = init_config_destroys cs ++ init_config_destroys cs'.
Proof. apply flat_map_app. Qed.

Lemma sa_config_destroys_app cs cs' :
  sa_config_destroys (cs ++ cs')
  = sa_config_destroys cs ++ sa_config_destroys cs'.
Proof. apply flat_map_app. Qed.

(** A segment of calls none of which is the destructor in question. *)
Lemma destroys_none {A : Type} (select : call -> list pointer)
    (f : A -> list call) (l : list A) :
  (forall x, flat_map select (f x) = []) ->
  flat_map select (flat_map f l) = [].
Proof.
  intros Hnone. induction l as [|x rest IH]; simpl; [reflexivity|].
  rewrite flat_map_app, Hnone, IH. reflexivity.
Qed.

Lemma init_config_destroys_destroy this :
  init_config_destroys (calls destroy this)
  = map init_config_addr (init_configs this).
Proof.
  rewrite calls_destroy. rewrite !init_config_destroys_app.
  unfold init_config_destroys.
  repeat match goal with
    | |- context [flat_map ?select (flat_map ?f ?l)] =>
        rewrite (destroys_none select f l) by reflexivity
    end.
  simpl. rewrite ?app_nil_r.
  induction (init_configs this) as [|c rest IH]; simpl; [reflexivity|].
  now rewrite IH.
Qed.

Lemma sa_config_destroys_destroy this :
  sa_config_destroys (calls destroy this)
  = map sa_config_addr (sa_configs this).
Proof.
  rewrite calls_destroy. rewrite !sa_config_destroys_app.
  unfold sa_config_destroys.
  repeat match goal with
    | |- context [flat_map ?select (flat_map ?f ?l)] =>
        rewrite (destroys_none select f l) by reflexivity
    end.
  simpl. rewrite ?app_nil_r.
  induction (sa_configs this) as [|c rest IH]; simpl; [reflexivity|].
  now rewrite IH.
Qed.

(** ** The store of preshared secrets *)

Lemma final_add_new_preshared_secret type id_string secret this :
  preshared_secrets (final (add_new_preshared_secret type id_string secret) this)
  = preshared_secrets this
    ++ [{| identification := identification_create_from_string type id_string;
           preshared_secret := memcpy (buffer secret) (strlen secret + 1) |}].
Proof. reflexivity. Qed.

Lemma length_list_byte_of_string s :
  List.length (list_byte_of_string s) = String.length s.
Proof.
  unfold list_byte_of_string. rewrite length_map.
  induction s as [|c s IH]; simpl; [reflexivity | now rewrite IH].
Qed.

Lemma strlen_le_length s : strlen s <= String.length s.
Proof.
  induction s as [|c s IH]; simpl; [lia|].
  destruct (Ascii.eqb c NUL); lia.
Qed.

(** The stored secret has [strlen + 1] bytes. *)
Lemma stored_secret_length s :
  List.length (memcpy (buffer s) (strlen s + 1)) = strlen s + 1.
Proof.
  unfold memcpy, buffer. rewrite length_firstn, length_app, length_list_byte_of_string.
  simpl. pose proof (strlen_le_length s). lia.
Qed.

Lemma byte_of_ascii_NUL c : byte_of_ascii c = x00 -> c = NUL.
Proof.
  intros H. rewrite <- (ascii_of_byte_of_ascii c), H. reflexivity.
Qed.

(** The byte at offset [strlen] of the buffer is the terminator, and it
    is the first zero byte. *)
Lemma buffer_terminator s :
  nth_error (buffer s) (strlen s) = Some x00.
Proof.
  unfold buffer, list_byte_of_string.
  induction s as [|c s IH]; simpl; [reflexivity|].
  destruct (Ascii.eqb_spec c NUL) as [->|Hc]; simpl; [reflexivity | exact IH].
Qed.

Lemma buffer_before_terminator s i :
  i < strlen s ->
  exists b, nth_error (buffer s) i = Some b /\ b <> x00.
Proof.
  unfold buffer, list_byte_of_string.
  revert i. induction s as [|c s IH]; simpl; intros i Hi; [lia|].
  destruct (Ascii.eqb_spec c NUL) as [->|Hc]; [lia|].
  destruct i as [|i]; simpl.
  - exists (byte_of_ascii c). split; [reflexivity|].
    intros H. apply Hc, byte_of_ascii_NUL, H.
  - apply IH. lia.
Qed.

Lemma nth_error_memcpy src n i :
  i < n -> nth_error (memcpy src n) i = nth_error src i.
Proof.
  intros Hi. unfold memcpy. rewrite nth_error_firstn.
  destruct (Nat.ltb_spec i n); [reflexivity | lia].
Qed.

(** ** The two branches of the host check *)

(** With an equal remote address the remote host is never asked whether
    it is the default route. *)
Lemma host_entry_check_exact_remote my_host other_host entry this h :
  ip_is_equal (get_other_host (init_config entry)) other_host = true ->
  ~ In (call_is_default_route role_other_host h)
       (calls (host_entry_check my_host other_host entry) this).
Proof.
  intros Hremote.
  unfold host_entry_check, calls, bind, ip_is_equal_call, is_default_route_call, ret.
  simpl. rewrite Hremote.
  destruct (is_default_route (get_my_host (init_config entry))); simpl.
  - intros [H|[H|[]]]; discriminate.
  - destruct (ip_is_equal (get_my_host (init_config entry)) my_host); simpl;
      intros [H|[H|[H|[]]]]; discriminate.
Qed.

(** An entry with an equal remote address whose local host fits neither
    way is passed over after three calls. *)
Lemma host_entry_check_rejects my_host other_host entry this :
  ip_is_equal (get_other_host (init_config entry)) other_host = true ->
  is_default_route (get_my_host (init_config entry)) = false ->
  ip_is_equal (get_my_host (init_config entry)) my_host = false ->
  host_entry_check my_host other_host entry this
  = (None, this,
     [call_ip_is_equal role_other_host (get_other_host (init_config entry)) other_host;
      call_is_default_route role_my_host (get_my_host (init_config entry));
      call_ip_is_equal role_my_host (get_my_host (init_config entry)) my_host]).
Proof.
  intros Hremote Hdefault Hlocal.
  unfold host_entry_check, bind, ip_is_equal_call, is_default_route_call, ret.
  simpl. rewrite Hremote. simpl. rewrite Hdefault. simpl. rewrite Hlocal.
  reflexivity.
Qed.

Lemma get_init_config_for_host_run my_host other_host this :
  get_init_config_for_host my_host other_host this
  = (found (result (iterate (configurations this)
                      (host_entry_check my_host other_host)) this),
     this,
     calls (iterate (configurations this)
              (host_entry_check my_host other_host)) this).
Proof.
  unfold get_init_config_for_host, bind at 1. simpl.
  pose proof (read_only_iterate (configurations this)
                (host_entry_check my_host other_host)
                (read_only_host_entry_check my_host other_host) this) as Hro.
  unfold result, calls, final, bind, ret in *.
  destruct (iterate (configurations this)
              (host_entry_check my_host other_host) this) as [[r s] c].
  simpl in *. subst s. rewrite app_nil_r. reflexivity.
Qed.

End ConfigurationManager.

Arguments private_configuration_manager_t : clear implicits.
Arguments init_config_t : clear implicits.
Arguments sa_config_t : clear implicits.
Arguments configuration_entry_t : clear implicits.
Arguments preshared_secret_entry_t : clear implicits.
Arguments call : clear implicits.
Arguments registration : clear implicits.

(** ** An instance of the collaborators *)

Module Loopback.

(** Modelled from the spec: [host_t] is declared elsewhere; a Host is an
    address and a port together with a marker that it matches any
    address (default route).  [ip_is_equal] compares the addresses. *)
Record host : Type := {
  address : N;
  port : N;
  default_route : bool
}.

#[global] Instance host_ops : Host host := {|
  ip_is_equal := fun this other => (address this =? address other)%N;
  is_default_route := default_route
|}.

(** Modelled from the spec: [identification_t] is declared elsewhere; an
    Identity is a kind and a value, and equality is structural. *)
Record identity : Type := {
  kind : id_type_t;
  value : string
}.

Definition id_type_eqb (a b : id_type_t) : bool :=
  match a, b with
  | ID_IPV4_ADDR, ID_IPV4_ADDR => true
  | ID_FQDN, ID_FQDN => true
  | _, _ => false
  end.

#[global] Instance identity_ops : Identification identity := {|
  identification_create_from_string := fun type id_string =>
    {| kind := type; value := strcpy id_string |};
  equals := fun this other =>
    id_type_eqb (kind this) (kind other) && String.eqb (value this) (value other)
|}.

(** A key object is the chunk it was set from. *)
#[global] Instance key_ops : RsaKeys chunk_t chunk_t := {|
  rsa_public_key_set_key := fun key => key;
  rsa_private_key_set_key := fun key => key
|}.

Definition manager : Type := private_configuration_manager_t host identity chunk_t chunk_t.
Definition entry : Type := configuration_entry_t host identity.

(** An IPv4 address from its four octets. *)
Definition ipv4 (a b c d : N) : N := (((a * 256 + b) * 256 + c) * 256 + d)%N.

(** A host with an exact address, and the default route. *)
Definition host_at (a b c d : N) : host :=
  {| address := ipv4 a b c d; port := 500; default_route := false |}.

Definition any_host : host :=
  {| address := ipv4 0 0 0 0; port := 500; default_route := true |}.

Definition ipv4_id (s : string) : identity :=
  identification_create_from_string ID_IPV4_ADDR s.

(** A configuration entry from the addresses of its two objects, its
    local and remote host and its local and remote identity. *)
Definition make_entry (name_ : string) (init_addr : pointer) (my other : host)
    (sa_addr : pointer) (my_id other_id : identity) : entry :=
  {| name := name_;
     init_config := {| init_config_addr := init_addr;
                       get_my_host := my; get_other_host := other |};
     sa_config := {| sa_config_addr := sa_addr;
                     get_my_id := my_id; get_other_id := other_id |} |}.

(** A manager holding the given configuration entries and secrets. *)
Definition holding (entries : list entry)
    (secrets : list (preshared_secret_entry_t identity))
    (max_count first_timeout : Z) : manager :=
  {| configurations := entries;
     init_configs := [];
     sa_configs := [];
     preshared_secrets := secrets;
     rsa_private_keys := [];
     rsa_public_keys := [];
     max_retransmit_count := max_count;
     first_retransmit_timeout := first_timeout;
     half_open_ike_sa_timeout := 30000 |}.

(** The two entries of the host example: an exact remote host with any
    local host, then any remote host with any local host. *)
Definition exact_entry : entry :=
  make_entry "exact" 16%N any_host (host_at 1 2 3 0) 32%N (ipv4_id "10.0.0.1") (ipv4_id "1.2.3.0").

Definition wildcard_entry : entry :=
  make_entry "wildcard" 48%N any_host any_host 64%N (ipv4_id "10.0.0.1") (ipv4_id "0.0.0.0").

End Loopback.

(** ** Properties of the lookups *)

Section Lookups.

Context {host_t identification_t rsa_public_key_t rsa_private_key_t : Type}.
Context `{HostOps : Host host_t}.
Context `{IdentificationOps : Identification identification_t}.
Context `{KeyOps : RsaKeys rsa_public_key_t rsa_private_key_t}.

Local Abbreviation manager_t :=
  (private_configuration_manager_t host_t identification_t
     rsa_public_key_t rsa_private_key_t).
Local Abbreviation entry_t := (configuration_entry_t host_t identification_t).

(** C1.  [get_init_config_for_host] goes through the configuration
    entries in the order of their registration and returns the
    [init_config] of the first entry that matches the observed hosts
    ([host_entry_matches]: the remote host is equal or the default
    route, and the local host is the default route or equal); entries in
    front that do not match are passed over, and without a match the
    status is [NOT_FOUND] and nothing is returned.  With an exact entry
    for remote 1.2.3.0 in front of a wildcard entry, the query (local
    9.9.9.9, remote 1.2.3.0) returns the exact entry. *)
Theorem get_init_config_for_host_first_match_wins :
  (forall name_ init_config_ sa_config_ (this : manager_t),
      configurations (final (add_new_configuration name_ init_config_ sa_config_) this)
      = configurations this
        ++ [configuration_entry_create name_ init_config_ sa_config_])
  /\ (forall (my_host other_host : host_t) (this : manager_t),
      result (get_init_config_for_host my_host other_host) this
      = first_match (host_entry_matches my_host other_host) init_config
          (configurations this))
  /\ (forall (my_host other_host : host_t) (this : manager_t)
        (before : list entry_t) (entry : entry_t) (after : list entry_t),
        configurations this = before ++ entry :: after ->
        (forall e, In e before -> host_entry_matches my_host other_host e = false) ->
        host_entry_matches my_host other_host entry = true ->
        result (get_init_config_for_host my_host other_host) this
        = (SUCCESS, Some (init_config entry)))
  /\ (forall (my_host other_host : host_t) (this : manager_t),
        (forall e, In e (configurations this) ->
                   host_entry_matches my_host other_host e = false) <->
        result (get_init_config_for_host my_host other_host) this
        = (NOT_FOUND, None))
  /\ (forall secrets max_count first_timeout,
        result (get_init_config_for_host
                  (Loopback.host_at 9 9 9 9) (Loopback.host_at 1 2 3 0))
          (Loopback.holding [Loopback.exact_entry; Loopback.wildcard_entry]
             secrets max_count first_timeout)
        = (SUCCESS, Some (init_config Loopback.exact_entry))).
Proof.
  split; [|split; [|split; [|split]]].
  - intros. apply configurations_add_new_configuration.
  - intros. apply get_init_config_for_host_first_match.
  - intros my_host other_host this before entry after Hcfg Hbefore Hentry.
    rewrite get_init_config_for_host_first_match, Hcfg.
    now apply first_match_found.
  - intros my_host other_host this.
    rewrite get_init_config_for_host_first_match.
    apply first_match_not_found.
  - intros. rewrite get_init_config_for_host_first_match. reflexivity.
Qed.

(** C2.  With a [NULL] local identity,
    [get_sa_config_for_init_config_and_id] returns the [sa_config] of
    the first entry, in the order of registration, that refers to the
    given [init_config_t] object (same address) and whose remote
    identity equals the given one; entries in front that fail either
    test are passed over, and the local identities of the entries,
    those of later entries included, play no part. *)
Theorem get_sa_config_without_local_id_first_remote_match :
  forall (init_config_ : init_config_t host_t) (other_id : identification_t)
         (this : manager_t),
    result (get_sa_config_for_init_config_and_id init_config_ other_id None) this
    = first_match
        (fun entry =>
           (init_config_addr (init_config entry) =? init_config_addr init_config_)%N
           && equals (get_other_id (sa_config entry)) other_id)
        sa_config (configurations this)
    /\ (forall name_ ic sc,
          configurations (final (add_new_configuration name_ ic sc) this)
          = configurations this ++ [configuration_entry_create name_ ic sc])
    /\ (forall before entry after,
          configurations this = before ++ entry :: after ->
          (forall e, In e before ->
                     remote_id_entry_matches init_config_ other_id e = false) ->
          remote_id_entry_matches init_config_ other_id entry = true ->
          result (get_sa_config_for_init_config_and_id init_config_ other_id None)
            this
          = (SUCCESS, Some (sa_config entry))).
Proof.
  intros ic other_id this. split; [|split].
  - apply get_sa_config_for_id_first_match_none.
  - intros. apply configurations_add_new_configuration.
  - intros before entry after Hcfg Hbefore Hentry.
    rewrite get_sa_config_for_id_first_match_none, Hcfg.
    now apply first_match_found.
Qed.

(** C3.  With a local identity supplied,
    [get_sa_config_for_init_config_and_id] returns the [sa_config] of
    the first entry that refers to the given [init_config_t] object and
    whose remote and local identities both equal the given ones; when no
    entry passes all three tests the status is [NOT_FOUND], whatever
    matches on the remote identity alone, and an entry in front whose
    local identity differs is passed over. *)
Theorem get_sa_config_with_local_id_needs_both :
  forall (init_config_ : init_config_t host_t) (other_id my_id : identification_t)
         (this : manager_t),
    result (get_sa_config_for_init_config_and_id init_config_ other_id (Some my_id))
      this
    = first_match
        (fun entry =>
           ((init_config_addr (init_config entry) =? init_config_addr init_config_)%N
            && equals (get_other_id (sa_config entry)) other_id)
           && equals (get_my_id (sa_config entry)) my_id)
        sa_config (configurations this)
    /\ ((forall e, In e (configurations this) ->
                   both_ids_entry_matches init_config_ other_id my_id e = false) ->
        result (get_sa_config_for_init_config_and_id init_config_ other_id
                  (Some my_id)) this
        = (NOT_FOUND, None))
    /\ (forall entry rest,
          configurations this = entry :: rest ->
          equals (get_my_id (sa_config entry)) my_id = false ->
          result (get_sa_config_for_init_config_and_id init_config_ other_id
                    (Some my_id)) this
          = result (get_sa_config_for_init_config_and_id init_config_ other_id
                      (Some my_id)) (with_configurations rest this)).
Proof.
  intros ic other_id my_id this. split; [|split].
  - apply get_sa_config_for_id_first_match_some.
  - intros Hnone. rewrite get_sa_config_for_id_first_match_some.
    now apply first_match_not_found.
  - intros entry rest Hcfg Hmy.
    rewrite !get_sa_config_for_id_first_match_some, Hcfg. simpl.
    apply first_match_skip. unfold both_ids_entry_matches.
    rewrite Hmy. apply andb_false_r.
Qed.

(** C7.  [get_init_config_for_name] and [get_sa_config_for_name] return
    the [init_config], respectively the [sa_config], of the first entry
    in the order of registration whose name is the queried name, as C
    strings, and [NOT_FOUND] exactly when no entry has that name; on
    strings without a zero character inside, the test is equality of
    the strings. *)
Theorem get_config_for_name_first_exact_name :
  forall (name_ : string) (this : manager_t),
    result (get_init_config_for_name name_) this
    = first_match (name_entry_matches name_) init_config (configurations this)
    /\ result (get_sa_config_for_name name_) this
       = first_match (name_entry_matches name_) sa_config (configurations this)
    /\ ((forall e, In e (configurations this) -> strcpy (name e) <> strcpy name_) <->
        result (get_init_config_for_name name_) this = (NOT_FOUND, None))
    /\ ((forall e, In e (configurations this) -> strcpy (name e) <> strcpy name_) <->
        result (get_sa_config_for_name name_) this = (NOT_FOUND, None))
    /\ (forall e : entry_t,
          (forall c, In c (list_ascii_of_string (name e)) -> c <> NUL) ->
          (forall c, In c (list_ascii_of_string name_) -> c <> NUL) ->
          name_entry_matches name_ e = String.eqb (name e) name_)
    /\ (forall new_name ic sc,
          configurations (final (add_new_configuration new_name ic sc) this)
          = configurations this ++ [configuration_entry_create new_name ic sc]).
Proof.
  intros name_ this.
  assert (Hneq : (forall e : entry_t, In e (configurations this) ->
                                      strcpy (name e) <> strcpy name_)
                 <-> (forall e : entry_t, In e (configurations this) ->
                                          name_entry_matches name_ e = false)).
  { unfold name_entry_matches.
    split; intros H e He; specialize (H e He).
    - now apply String.eqb_neq.
    - now apply String.eqb_neq in H. }
  repeat split.
  - apply get_init_config_for_name_first_match.
  - apply get_sa_config_for_name_first_match.
  - intros H. rewrite get_init_config_for_name_first_match.
    apply first_match_not_found, Hneq, H.
  - rewrite get_init_config_for_name_first_match.
    intros H. apply Hneq. eapply first_match_not_found, H.
  - intros H. rewrite get_sa_config_for_name_first_match.
    apply first_match_not_found, Hneq, H.
  - rewrite get_sa_config_for_name_first_match.
    intros H. apply Hneq. eapply first_match_not_found, H.
  - intros e He Hn. unfold name_entry_matches.
    now rewrite (strcpy_no_NUL _ He), (strcpy_no_NUL _ Hn).
  - intros. apply configurations_add_new_configuration.
Qed.

(** C8.  Each of the nine lookups leaves the object behind [this] as it
    was: the six lists and the three timing values after the call are
    those before the call, whatever the arguments. *)
Theorem lookups_leave_manager_unchanged :
  forall (this : manager_t),
    (forall my_host other_host,
        final (get_init_config_for_host my_host other_host) this = this)
    /\ (forall name_, final (get_init_config_for_name name_) this = this)
    /\ (forall name_, final (get_sa_config_for_name name_) this = this)
    /\ (forall init_config_ other_id my_id,
          final (get_sa_config_for_init_config_and_id init_config_ other_id my_id)
            this = this)
    /\ (forall id, final (get_shared_secret id) this = this)
    /\ (forall id, final (get_rsa_public_key id) this = this)
    /\ (forall id, final (get_rsa_private_key id) this = this)
    /\ (forall retransmit_count,
          final (get_retransmit_timeout retransmit_count) this = this)
    /\ final get_half_open_ike_sa_timeout this = this.
Proof.
  intros this. repeat split; intros.
  - apply read_only_get_init_config_for_host.
  - apply read_only_get_init_config_for_name.
  - apply read_only_get_sa_config_for_name.
  - apply read_only_get_sa_config_for_init_config_and_id.
  - apply read_only_get_shared_secret.
  - apply read_only_get_rsa_public_key.
  - apply read_only_get_rsa_private_key.
  - apply read_only_get_retransmit_timeout.
Qed.

End Lookups.

(** ** Properties of the host check, the registry, the secrets and the timing *)

Section Registry.

Context {host_t identification_t rsa_public_key_t rsa_private_key_t : Type}.
Context `{HostOps : Host host_t}.
Context `{IdentificationOps : Identification identification_t}.
Context `{KeyOps : RsaKeys rsa_public_key_t rsa_private_key_t}.

Local Abbreviation manager_t :=
  (private_configuration_manager_t host_t identification_t
     rsa_public_key_t rsa_private_key_t).
Local Abbreviation entry_t := (configuration_entry_t host_t identification_t).

(** The host check does not look at the object behind [this]. *)
Lemma host_entry_check_any_manager my_host other_host (entry : entry_t)
    (this this' : manager_t) :
  result (host_entry_check my_host other_host entry) this
  = result (host_entry_check my_host other_host entry) this'
  /\ calls (host_entry_check my_host other_host entry) this
     = calls (host_entry_check my_host other_host entry) this'.
Proof.
  unfold host_entry_check, result, calls, bind, ip_is_equal_call,
    is_default_route_call, ret; simpl.
  destruct (ip_is_equal (get_other_host (init_config entry)) other_host); simpl;
    destruct (is_default_route (get_my_host (init_config entry))); simpl;
    destruct (is_default_route (get_other_host (init_config entry))); simpl;
    destruct (ip_is_equal (get_my_host (init_config entry)) my_host); simpl;
    split; reflexivity.
Qed.

Lemma iterate_any_manager {A R : Type} (body : A -> M (option R)) (l : list A) :
  (forall x, read_only (body x)) ->
  (forall x (this this' : manager_t),
      result (body x) this = result (body x) this'
      /\ calls (body x) this = calls (body x) this') ->
  forall this this' : manager_t,
    result (iterate l body) this = result (iterate l body) this'
    /\ calls (iterate l body) this = calls (iterate l body) this'.
Proof.
  intros Hro Hany. induction l as [|x rest IH]; intros this this'; simpl.
  - split; reflexivity.
  - rewrite !result_bind, !calls_bind, !Hro.
    destruct (Hany x this this') as [Hr Hc]. rewrite Hr, Hc.
    destruct (result (body x) this') as [v|].
    + split; reflexivity.
    + destruct (IH this this') as [Hr' Hc']. rewrite Hr', Hc'.
      split; reflexivity.
Qed.

Lemma result_get_init_config_for_host my_host other_host (this : manager_t) :
  result (get_init_config_for_host my_host other_host) this
  = found (result (iterate (configurations this)
                     (host_entry_check my_host other_host)) this).
Proof.
  unfold result at 1. now rewrite get_init_config_for_host_run.
Qed.

Lemma calls_get_init_config_for_host my_host other_host (this : manager_t) :
  calls (get_init_config_for_host my_host other_host) this
  = calls (iterate (configurations this)
             (host_entry_check my_host other_host)) this.
Proof.
  unfold calls at 1. now rewrite get_init_config_for_host_run.
Qed.

(** C10.  In [get_init_config_for_host] an entry whose remote host has
    the observed remote address, and whose local host is neither the
    default route nor has the observed local address, is rejected after
    three calls: the address comparison on the remote host, the default
    route test on the local host and the address comparison on the local
    host.  The default route test on the remote host is not among them,
    whatever it would answer, and the scan goes on with the next entry:
    the lookup returns what it returns for the remaining entries. *)
Theorem exact_remote_branch_excludes_wildcard_branch :
  forall (my_host other_host : host_t) (this : manager_t)
         (entry : entry_t) (rest : list entry_t),
    configurations this = entry :: rest ->
    ip_is_equal (get_other_host (init_config entry)) other_host = true ->
    is_default_route (get_my_host (init_config entry)) = false ->
    ip_is_equal (get_my_host (init_config entry)) my_host = false ->
    let entry_calls :=
      [call_ip_is_equal role_other_host (get_other_host (init_config entry)) other_host;
       call_is_default_route role_my_host (get_my_host (init_config entry));
       call_ip_is_equal role_my_host (get_my_host (init_config entry)) my_host]
        : list (call host_t identification_t rsa_public_key_t rsa_private_key_t) in
    host_entry_check my_host other_host entry this = (None, this, entry_calls)
    /\ (forall h, ~ In (call_is_default_route role_other_host h) entry_calls)
    /\ result (get_init_config_for_host my_host other_host) this
       = result (get_init_config_for_host my_host other_host)
           (with_configurations rest this)
    /\ calls (get_init_config_for_host my_host other_host) this
       = entry_calls
         ++ calls (get_init_config_for_host my_host other_host)
              (with_configurations rest this).
Proof.
  intros my_host other_host this entry rest Hcfg Hremote Hdefault Hlocal entry_calls.
  pose proof (host_entry_check_rejects my_host other_host entry this
                Hremote Hdefault Hlocal) as Hrun.
  fold entry_calls in Hrun.
  split; [exact Hrun|]. split.
  - intros h [H|[H|[H|[]]]]; discriminate.
  - rewrite !result_get_init_config_for_host, !calls_get_init_config_for_host.
    change (configurations (with_configurations rest this)) with rest.
    rewrite Hcfg.
    destruct (iterate_fall_through (host_entry_check my_host other_host)
                entry rest this
                (read_only_host_entry_check my_host other_host entry)) as [Hr Hc].
    { unfold result. now rewrite Hrun. }
    destruct (iterate_any_manager (host_entry_check my_host other_host) rest
                (read_only_host_entry_check my_host other_host)
                (host_entry_check_any_manager my_host other_host)
                this (with_configurations rest this)) as [Hr' Hc'].
    rewrite Hr, Hc, Hr', Hc'. unfold calls at 1. rewrite Hrun.
    split; reflexivity.
Qed.

(** The manager [configuration_manager_create] returns owns its default
    configuration once. *)
Lemma ownership_configuration_manager_create first max half
    (ic : init_config_t host_t) (sc : sa_config_t identification_t)
    public_key_1 private_key_1 :
  ownership (configuration_manager_create first max half ic sc
               public_key_1 private_key_1 : manager_t).
Proof.
  unfold configuration_manager_create, load_default_config.
  rewrite !final_bind.
  apply (ownership_register (new_rsa_private_key _ _ _)).
  apply (ownership_register (new_rsa_public_key _ _ _)).
  apply ownership_add_new_configuration, ownership_empty_manager.
Qed.

(** C4.  [add_new_configuration] puts an [init_config_t] object, and
    likewise an [sa_config_t] object, into the list of owned objects
    only when no object with the same address is in that list.  Hence,
    after [configuration_manager_create] and any sequence of
    registrations, an address occurs once in the list of owned objects
    when some configuration entry refers to it, however many do, and not
    at all otherwise; and [destroy] calls the destructor of the object
    at that address exactly as often. *)
Theorem policy_objects_owned_once_destroyed_once :
  forall (first max half : Z)
         (default_init_config : init_config_t host_t)
         (default_sa_config : sa_config_t identification_t)
         (public_key_1 private_key_1 : chunk_t)
         (registrations : list (registration host_t identification_t)),
    let this : manager_t :=
      final (register_all registrations)
        (configuration_manager_create first max half
           default_init_config default_sa_config public_key_1 private_key_1) in
    (forall name_ ic sc (before : manager_t),
        init_configs (final (add_new_configuration name_ ic sc) before)
        = (if existsb (fun owned => (init_config_addr ic =? init_config_addr owned)%N)
                (init_configs before)
           then init_configs before
           else ic :: init_configs before)
        /\ sa_configs (final (add_new_configuration name_ ic sc) before)
           = (if existsb (fun owned => (sa_config_addr sc =? sa_config_addr owned)%N)
                   (sa_configs before)
              then sa_configs before
              else sc :: sa_configs before))
    /\ (forall p,
          occurrences p (map init_config_addr (init_configs this))
          = if init_config_referenced p this then 1 else 0)
    /\ (forall p,
          occurrences p (map sa_config_addr (sa_configs this))
          = if sa_config_referenced p this then 1 else 0)
    /\ (forall p,
          occurrences p (init_config_destroys (calls destroy this))
          = if init_config_referenced p this then 1 else 0)
    /\ (forall p,
          occurrences p (sa_config_destroys (calls destroy this))
          = if sa_config_referenced p this then 1 else 0).
Proof.
  intros first max half ic0 sc0 pk sk rs this.
  assert (Hown : ownership this).
  { apply ownership_register_all, ownership_configuration_manager_create. }
  destruct Hown as [Hinit Hsa].
  split; [|split; [|split; [|split]]].
  - intros name_ ic sc before. rewrite final_add_new_configuration.
    split; reflexivity.
  - exact Hinit.
  - exact Hsa.
  - intros p. rewrite init_config_destroys_destroy. apply Hinit.
  - intros p. rewrite sa_config_destroys_destroy. apply Hsa.
Qed.

Lemma strlen_no_NUL s :
  (forall c, In c (list_ascii_of_string s) -> c <> NUL) ->
  strlen s = String.length s.
Proof.
  induction s as [|c s IH]; simpl; intros H; [reflexivity|].
  destruct (Ascii.eqb_spec c NUL) as [->|_].
  - exfalso. apply (H NUL); [now left | reflexivity].
  - f_equal. apply IH. intros d Hd. apply H. now right.
Qed.

(** The chunk stored for a string: the bytes of the C string, that is
    the bytes in front of the terminator, and then the terminator. *)
Lemma stored_secret_bytes s :
  memcpy (buffer s) (strlen s + 1) = list_byte_of_string (strcpy s) ++ [x00].
Proof.
  unfold memcpy, buffer, list_byte_of_string.
  induction s as [|c s IH]; simpl; [reflexivity|].
  destruct (Ascii.eqb_spec c NUL) as [->|Hc]; simpl; [reflexivity|].
  f_equal. exact IH.
Qed.

(** C6.  [add_new_preshared_secret] appends without looking for an
    entry with the same identification: after two calls both entries
    are in the list, behind the earlier ones and in the order of the
    calls, each holding the bytes of the C string it was given followed
    by the terminator.  [get_shared_secret] returns the secret of the
    first entry whose identification equals the queried one, with the
    bytes as they are stored: after two calls with identifications that
    equal the query it returns the bytes given to the first call (for a
    string without a zero character inside, all its bytes) followed by
    the terminator, provided no earlier entry equals the query; and it
    reports [NOT_FOUND] exactly when no entry equals the query. *)
Theorem preshared_secrets_keep_duplicates_in_order :
  forall (this : manager_t) (type1 type2 : id_type_t)
         (id_string1 id_string2 secret1 secret2 : string),
    let entry1 :=
      {| identification := identification_create_from_string type1 id_string1;
         preshared_secret := list_byte_of_string (strcpy secret1) ++ [x00] |} in
    let entry2 :=
      {| identification := identification_create_from_string type2 id_string2;
         preshared_secret := list_byte_of_string (strcpy secret2) ++ [x00] |} in
    let after : manager_t :=
      final (add_new_preshared_secret type2 id_string2 secret2)
        (final (add_new_preshared_secret type1 id_string1 secret1) this) in
    preshared_secrets after = preshared_secrets this ++ [entry1; entry2]
    /\ (forall id,
          result (get_shared_secret id) this
          = first_match (fun entry => equals (identification entry) id)
              preshared_secret (preshared_secrets this))
    /\ (forall id,
          (forall e, In e (preshared_secrets this) ->
                     equals (identification e) id = false) ->
          equals (identification_create_from_string type1 id_string1) id = true ->
          equals (identification_create_from_string type2 id_string2) id = true ->
          result (get_shared_secret id) after
          = (SUCCESS, Some (list_byte_of_string (strcpy secret1) ++ [x00])))
    /\ ((forall c, In c (list_ascii_of_string secret1) -> c <> NUL) ->
        forall id,
          (forall e, In e (preshared_secrets this) ->
                     equals (identification e) id = false) ->
          equals (identification_create_from_string type1 id_string1) id = true ->
          result (get_shared_secret id) after
          = (SUCCESS, Some (list_byte_of_string secret1 ++ [x00])))
    /\ (forall id before entry behind,
          preshared_secrets this = before ++ entry :: behind ->
          (forall e, In e before -> equals (identification e) id = false) ->
          equals (identification entry) id = true ->
          result (get_shared_secret id) this
          = (SUCCESS, Some (preshared_secret entry)))
    /\ (forall id,
          (forall e, In e (preshared_secrets this) ->
                     equals (identification e) id = false) <->
          result (get_shared_secret id) this = (NOT_FOUND, None)).
Proof.
  intros this type1 type2 id_string1 id_string2 secret1 secret2
    entry1 entry2 after.
  assert (Hafter : preshared_secrets after
                   = preshared_secrets this ++ [entry1; entry2]).
  { unfold after. rewrite !final_add_new_preshared_secret.
    rewrite !stored_secret_bytes, <- app_assoc. reflexivity. }
  assert (Hfirst : forall id,
             (forall e, In e (preshared_secrets this) ->
                        equals (identification e) id = false) ->
             equals (identification_create_from_string type1 id_string1) id = true ->
             result (get_shared_secret id) after
             = (SUCCESS, Some (list_byte_of_string (strcpy secret1) ++ [x00]))).
  { intros id Hnone Hid.
    rewrite get_shared_secret_first_match, Hafter.
    apply (first_match_found
             (fun entry => equals (identification entry) id) preshared_secret
             (preshared_secrets this) entry1 [entry2]); assumption. }
  split; [exact Hafter|]. split; [|split; [|split; [|split]]].
  - intros id. apply get_shared_secret_first_match.
  - intros id Hnone Hid _. now apply Hfirst.
  - intros Hno id Hnone Hid.
    rewrite <- (strcpy_no_NUL _ Hno) at 1. now apply Hfirst.
  - intros id before entry behind Hlist Hbefore Hentry.
    rewrite get_shared_secret_first_match, Hlist.
    now apply first_match_found.
  - intros id. rewrite get_shared_secret_first_match.
    apply first_match_not_found.
Qed.

(** C9.  The chunk [add_new_preshared_secret] stores for a string has
    [strlen] + 1 bytes: the bytes of the string, none of them zero,
    followed by the zero terminator as the last byte; this chunk is what
    a later [get_shared_secret] returns. *)
Theorem stored_preshared_secret_ends_with_terminator :
  forall (this : manager_t) (type : id_type_t) (id_string secret : string),
    let after : manager_t :=
      final (add_new_preshared_secret type id_string secret) this in
    let stored : chunk_t := memcpy (buffer secret) (strlen secret + 1) in
    preshared_secrets after
    = preshared_secrets this
      ++ [{| identification := identification_create_from_string type id_string;
             preshared_secret := stored |}]
    /\ List.length stored = strlen secret + 1
    /\ nth_error stored (List.length stored - 1) = Some x00
    /\ (forall i, i < strlen secret ->
          exists b, nth_error stored i = Some b /\ b <> x00
                    /\ nth_error (list_byte_of_string secret) i = Some b)
    /\ ((forall c, In c (list_ascii_of_string secret) -> c <> NUL) ->
        stored = list_byte_of_string secret ++ [x00])
    /\ (forall id,
          (forall e, In e (preshared_secrets this) ->
                     equals (identification e) id = false) ->
          equals (identification_create_from_string type id_string) id = true ->
          result (get_shared_secret id) after = (SUCCESS, Some stored)).
Proof.
  intros this type id_string secret after stored.
  assert (Hlen : List.length stored = strlen secret + 1)
    by apply stored_secret_length.
  split; [reflexivity|]. split; [exact Hlen|]. split; [|split; [|split]].
  - rewrite Hlen. replace (strlen secret + 1 - 1) with (strlen secret) by lia.
    unfold stored. rewrite nth_error_memcpy by lia. apply buffer_terminator.
  - intros i Hi.
    destruct (buffer_before_terminator secret Hi) as (b & Hb & Hnz).
    exists b. unfold stored. rewrite nth_error_memcpy by lia.
    repeat split; try assumption.
    unfold buffer in Hb. rewrite nth_error_app1 in Hb; [exact Hb|].
    rewrite length_list_byte_of_string. pose proof (strlen_le_length secret). lia.
  - intros Hno. unfold stored, memcpy, buffer.
    rewrite (strlen_no_NUL _ Hno). apply firstn_all2.
    rewrite length_app, length_list_byte_of_string. simpl. lia.
  - intros id Hnone Hid.
    rewrite get_shared_secret_first_match.
    unfold after. rewrite final_add_new_preshared_secret.
    apply (first_match_found
             (fun entry => equals (identification entry) id) preshared_secret
             (preshared_secrets this)
             {| identification := identification_create_from_string type id_string;
                preshared_secret := stored |} []);
      assumption.
Qed.

(** C5.  For 32-bit values, [get_retransmit_timeout] fails exactly when
    the maximal retransmit count is not zero and the retransmit count is
    above it: with a maximum of 3 the count 4 fails, with a maximum of 0
    no count fails.  Otherwise it succeeds and the timeout is the first
    timeout times 2 to the power of the retransmit count, reduced to 32
    bits: the first timeout itself for count 0, and the product itself
    whenever that fits into 32 bits. *)
Theorem get_retransmit_timeout_doubles_until_exceeded :
  forall (this : manager_t) (retransmit_count : Z),
    (0 <= retransmit_count < 2 ^ 32)%Z ->
    (0 <= max_retransmit_count this < 2 ^ 32)%Z ->
    (0 <= first_retransmit_timeout this < 2 ^ 32)%Z ->
    let exceeded :=
      (max_retransmit_count this <> 0
       /\ retransmit_count > max_retransmit_count this)%Z in
    let outcome := result (get_retransmit_timeout retransmit_count) this in
    (fst outcome = FAILED <-> exceeded)
    /\ (exceeded -> outcome = (FAILED, None))
    /\ (~ exceeded ->
        outcome
        = (SUCCESS,
           Some ((first_retransmit_timeout this * 2 ^ retransmit_count)
                 mod 2 ^ 32)%Z))
    /\ (~ exceeded ->
        (first_retransmit_timeout this * 2 ^ retransmit_count < 2 ^ 32)%Z ->
        outcome
        = (SUCCESS, Some (first_retransmit_timeout this * 2 ^ retransmit_count)%Z))
    /\ (retransmit_count = 0%Z ->
        outcome = (SUCCESS, Some (first_retransmit_timeout this)))
    /\ (max_retransmit_count this = 0%Z -> fst outcome = SUCCESS)
    /\ (max_retransmit_count this = 3%Z -> retransmit_count = 4%Z ->
        outcome = (FAILED, None)).
Proof.
  intros this rc Hrc Hmax Hfirst exceeded outcome.
  assert (Hout : outcome
                 = if (rc >? max_retransmit_count this)%Z
                      && negb (max_retransmit_count this =? 0)%Z
                   then (FAILED, None)
                   else (SUCCESS,
                         Some ((first_retransmit_timeout this * 2 ^ rc)
                               mod 2 ^ 32)%Z)).
  { unfold outcome. rewrite get_retransmit_timeout_result.
    rewrite (u32_small Hrc). reflexivity. }
  assert (Hdec : ((rc >? max_retransmit_count this)%Z
                  && negb (max_retransmit_count this =? 0)%Z = true)
                 <-> exceeded).
  { unfold exceeded. rewrite andb_true_iff, negb_true_iff, Z.eqb_neq.
    rewrite Z.gtb_gt. tauto. }
  destruct ((rc >? max_retransmit_count this)%Z
            && negb (max_retransmit_count this =? 0)%Z) eqn:Hcond.
  - assert (Hex : exceeded) by now apply Hdec.
    rewrite Hout. simpl.
    split; [tauto|]. split; [tauto|]. split; [tauto|]. split; [tauto|].
    destruct Hex as [Hnz Hgt].
    split; [intros H0; lia|]. split; [intros H0; contradiction|].
    reflexivity.
  - assert (Hnex : ~ exceeded) by (intros H; apply Hdec in H; discriminate).
    rewrite Hout. simpl.
    split; [split; [discriminate | contradiction]|].
    split; [contradiction|]. split; [reflexivity|].
    split; [|split; [|split]].
    + intros _ Hfits. do 2 f_equal. apply Z.mod_small.
      split; [|exact Hfits]. apply Z.mul_nonneg_nonneg; [lia|].
      apply Z.pow_nonneg. lia.
    + intros H0. rewrite H0. do 2 f_equal. rewrite Z.pow_0_r, Z.mul_1_r.
      apply Z.mod_small. exact Hfirst.
    + reflexivity.
    + intros H3 H4. exfalso. apply Hnex. unfold exceeded. lia.
Qed.

End Registry.

(** ** The properties at work on the loopback instance *)

Module Examples.
Import Loopback.

(** An entry whose remote host has the address 1.2.3.0 and is marked as
    default route as well, with the local host 10.0.0.1. *)
Definition marked_entry : entry :=
  make_entry "marked" 80%N (host_at 10 0 0 1)
    {| address := ipv4 1 2 3 0; port := 500; default_route := true |}
    96%N (ipv4_id "10.0.0.1") (ipv4_id "1.2.3.0").

(** Two entries on one [init_config_t] object with the same remote
    identity and different local identities. *)
Definition west_entry : entry :=
  make_entry "west" 16%N any_host (host_at 1 2 3 0)
    32%N (ipv4_id "10.0.0.1") (ipv4_id "1.2.3.0").

Definition east_entry : entry :=
  make_entry "east" 16%N any_host (host_at 1 2 3 0)
    112%N (ipv4_id "10.0.0.2") (ipv4_id "1.2.3.0").

Definition timing (max_count first_timeout : Z) : manager :=
  holding [] [] max_count first_timeout.

(** A created manager on which "west" and "east" are registered, and two
    secrets for one identification. *)
Definition loaded : manager :=
  final (register_all
           [new_configuration "west" (init_config west_entry) (sa_config west_entry);
            new_configuration "east" (init_config east_entry) (sa_config east_entry);
            new_preshared_secret ID_IPV4_ADDR "1.2.3.0" "first";
            new_preshared_secret ID_IPV4_ADDR "1.2.3.0" "second"])
    (configuration_manager_create 3000 3 30000
       (init_config wildcard_entry) (sa_config wildcard_entry) [x01] [x02]).

Example host_lookup_prefers_first :
  result (get_init_config_for_host (host_at 9 9 9 9) (host_at 1 2 3 0))
    (holding [exact_entry; wildcard_entry] [] 3 1000)
  = (SUCCESS, Some (init_config exact_entry))
  /\ result (get_init_config_for_host (host_at 9 9 9 9) (host_at 4 4 4 4))
       (holding [exact_entry] [] 3 1000)
     = (NOT_FOUND, None).
Proof. split; reflexivity. Qed.

Example session_lookup_by_identities :
  result (get_sa_config_for_init_config_and_id (init_config west_entry)
            (ipv4_id "1.2.3.0") None) loaded
  = (SUCCESS, Some (sa_config west_entry))
  /\ result (get_sa_config_for_init_config_and_id (init_config west_entry)
               (ipv4_id "1.2.3.0") (Some (ipv4_id "10.0.0.2"))) loaded
     = (SUCCESS, Some (sa_config east_entry))
  /\ result (get_sa_config_for_init_config_and_id (init_config west_entry)
               (ipv4_id "1.2.3.0") (Some (ipv4_id "10.0.0.3"))) loaded
     = (NOT_FOUND, None).
Proof. repeat split; reflexivity. Qed.

Example name_lookup :
  result (get_sa_config_for_name "east") loaded
  = (SUCCESS, Some (sa_config east_entry))
  /\ result (get_init_config_for_name "localhost") loaded
     = (SUCCESS, Some (init_config wildcard_entry))
  /\ result (get_init_config_for_name "eas") loaded = (NOT_FOUND, None).
Proof. repeat split; reflexivity. Qed.

Example shared_init_config_owned_once :
  map init_config_addr (init_configs loaded) = [16%N; 48%N]
  /\ map sa_config_addr (sa_configs loaded) = [112%N; 32%N; 64%N]
  /\ init_config_destroys (calls destroy loaded) = [16%N; 48%N].
Proof. repeat split; reflexivity. Qed.

Example first_secret_is_returned :
  result (get_shared_secret (ipv4_id "1.2.3.0")) loaded
  = (SUCCESS, Some (list_byte_of_string "first" ++ [x00]))
  /\ result (get_shared_secret (ipv4_id "1.2.3.1")) loaded = (NOT_FOUND, None).
Proof. split; reflexivity. Qed.

Example retransmit_timeouts :
  result (get_retransmit_timeout 0) loaded = (SUCCESS, Some 3000%Z)
  /\ result (get_retransmit_timeout 3) loaded = (SUCCESS, Some 24000%Z)
  /\ result (get_retransmit_timeout 4) loaded = (FAILED, None)
  /\ result (get_retransmit_timeout 40) (timing 0 3000) = (SUCCESS, Some 0%Z).
Proof. repeat split; reflexivity. Qed.

End Examples.

(** The entry [Examples.marked_entry] in front of the wildcard entry,
    seen from local 9.9.9.9 and remote 1.2.3.0: its remote host has the
    observed address and is marked as default route, its local host
    fits neither way; the entry is passed over after three calls and the
    wildcard entry behind it is returned. *)
Lemma exact_remote_branch_excludes_wildcard_branch_witness :
  is_default_route (get_other_host (init_config Examples.marked_entry)) = true
  /\ host_entry_check (Loopback.host_at 9 9 9 9) (Loopback.host_at 1 2 3 0)
       Examples.marked_entry
       (Loopback.holding [Examples.marked_entry; Loopback.wildcard_entry] [] 3 1000)
     = (None,
        Loopback.holding [Examples.marked_entry; Loopback.wildcard_entry] [] 3 1000,
        [call_ip_is_equal role_other_host
           (get_other_host (init_config Examples.marked_entry))
           (Loopback.host_at 1 2 3 0);
         call_is_default_route role_my_host
           (get_my_host (init_config Examples.marked_entry));
         call_ip_is_equal role_my_host
           (get_my_host (init_config Examples.marked_entry))
           (Loopback.host_at 9 9 9 9)])
  /\ result (get_init_config_for_host
               (Loopback.host_at 9 9 9 9) (Loopback.host_at 1 2 3 0))
       (Loopback.holding [Examples.marked_entry; Loopback.wildcard_entry] [] 3 1000)
     = (SUCCESS, Some (init_config Loopback.wildcard_entry)).
Proof.
  destruct (exact_remote_branch_excludes_wildcard_branch
              (Loopback.host_at 9 9 9 9) (Loopback.host_at 1 2 3 0)
              (Loopback.holding
                 [Examples.marked_entry; Loopback.wildcard_entry] [] 3 1000)
              (entry := Examples.marked_entry)
              (rest := [Loopback.wildcard_entry]))
    as (Hrun & _ & Hresult & _); [reflexivity .. |].
  split; [reflexivity|]. split; [exact Hrun|].
  rewrite Hresult. reflexivity.
Defined.

(** A first timeout of 1000 ms and at most 3 retransmits: the second
    retransmit waits 4000 ms, a fourth retransmit is refused. *)
Lemma get_retransmit_timeout_doubles_until_exceeded_witness :
  result (get_retransmit_timeout 2) (Examples.timing 3 1000)
  = (SUCCESS, Some 4000%Z)
  /\ fst (result (get_retransmit_timeout 4) (Examples.timing 3 1000)) = FAILED.
Proof.
  split.
  - destruct (@get_retransmit_timeout_doubles_until_exceeded
                _ _ _ _ (Examples.timing 3 1000) 2%Z)
      as (_ & _ & _ & Hfits & _); [simpl; lia .. |].
    apply Hfits; simpl; lia.
  - destruct (@get_retransmit_timeout_doubles_until_exceeded
                _ _ _ _ (Examples.timing 3 1000) 4%Z)
      as (Hfailed & _); [simpl; lia .. |].
    apply Hfailed. simpl. lia.
Defined.

(** ** How registrations and lookups compose *)

Arguments rsa_public_key_entry_t : clear implicits.
Arguments rsa_private_key_entry_t : clear implicits.

Section Composition.

Context {host_t identification_t rsa_public_key_t rsa_private_key_t : Type}.
Context `{HostOps : Host host_t}.
Context `{IdentificationOps : Identification identification_t}.
Context `{KeyOps : RsaKeys rsa_public_key_t rsa_private_key_t}.

Local Abbreviation manager_t :=
  (private_configuration_manager_t host_t identification_t
     rsa_public_key_t rsa_private_key_t).
Local Abbreviation entry_t := (configuration_entry_t host_t identification_t).
Local Abbreviation registration_t := (registration host_t identification_t).

(** The entries a sequence of registrations creates, list by list. *)
Definition registered_configurations (rs : list registration_t) : list entry_t :=
  flat_map (fun r =>
    match r with
    | new_configuration n i s => [configuration_entry_create n i s]
    | _ => []
    end) rs.

Definition registered_preshared_secrets (rs : list registration_t)
    : list (preshared_secret_entry_t identification_t) :=
  flat_map (fun r =>
    match r with
    | new_preshared_secret t i s =>
        [{| identification := identification_create_from_string t i;
            preshared_secret := memcpy (buffer s) (strlen s + 1) |}]
    | _ => []
    end) rs.

Definition registered_rsa_public_keys (rs : list registration_t)
    : list (rsa_public_key_entry_t identification_t rsa_public_key_t) :=
  flat_map (fun r =>
    match r with
    | new_rsa_public_key t i k =>
        [{| public_key_identification := identification_create_from_string t i;
            public_key := rsa_public_key_set_key k |}]
    | _ => []
    end) rs.

Definition registered_rsa_private_keys (rs : list registration_t)
    : list (rsa_private_key_entry_t identification_t rsa_private_key_t) :=
  flat_map (fun r =>
    match r with
    | new_rsa_private_key t i k =>
        [{| private_key_identification := identification_create_from_string t i;
            private_key := rsa_private_key_set_key k |}]
    | _ => []
    end) rs.

(** The lists a lookup scans and the timing values, after a sequence of
    registrations. *)
Definition registered_after (rs : list registration_t) (this after : manager_t)
    : Prop :=
  configurations after = configurations this ++ registered_configurations rs
  /\ preshared_secrets after
     = preshared_secrets this ++ registered_preshared_secrets rs
  /\ rsa_public_keys after
     = rsa_public_keys this ++ registered_rsa_public_keys rs
  /\ rsa_private_keys after
     = rsa_private_keys this ++ registered_rsa_private_keys rs
  /\ max_retransmit_count after = max_retransmit_count this
  /\ first_retransmit_timeout after = first_retransmit_timeout this
  /\ half_open_ike_sa_timeout after = half_open_ike_sa_timeout this.

Lemma registered_after_register (r : registration_t) (this : manager_t) :
  registered_after [r] this (final (register r) this).
Proof.
  unfold registered_after.
  destruct r as [n i s|t i s|t i k|t i k]; simpl.
  - rewrite final_add_new_configuration. simpl.
    rewrite !app_nil_r. repeat split; reflexivity.
  - rewrite !app_nil_r. repeat split; reflexivity.
  - rewrite !app_nil_r. repeat split; reflexivity.
  - rewrite !app_nil_r. repeat split; reflexivity.
Qed.

Lemma registered_after_register_all (rs : list registration_t) (this : manager_t) :
  registered_after rs this (final (register_all rs) this).
Proof.
  revert this. induction rs as [|r rest IH]; intros this.
  - unfold registered_after. simpl. rewrite !app_nil_r. repeat split; reflexivity.
  - simpl register_all. rewrite final_bind.
    destruct (registered_after_register r this)
      as (Hc & Hs & Hpub & Hpriv & Hmax & Hfirst & Hhalf).
    destruct (IH (final (register r) this))
      as (Hc' & Hs' & Hpub' & Hpriv' & Hmax' & Hfirst' & Hhalf').
    unfold registered_after.
    rewrite Hc', Hs', Hpub', Hpriv', Hmax', Hfirst', Hhalf'.
    rewrite Hc, Hs, Hpub, Hpriv, Hmax, Hfirst, Hhalf.
    unfold registered_configurations, registered_preshared_secrets,
      registered_rsa_public_keys, registered_rsa_private_keys in *.
    simpl flat_map. rewrite !app_nil_r, <- !app_assoc.
    repeat split; reflexivity.
Qed.

Lemma get_rsa_public_key_first_match id (this : manager_t) :
  result (get_rsa_public_key id) this
  = first_match (fun entry => equals (public_key_identification entry) id)
      public_key (rsa_public_keys this).
Proof.
  unfold get_rsa_public_key.
  rewrite result_bind, result_bind, result_ret.
  apply iterate_first_match.
  - intros entry s. unfold final, bind, equals_call, ret.
    destruct (equals (public_key_identification entry) id); reflexivity.
  - intros entry s. unfold result, bind, equals_call, ret.
    destruct (equals (public_key_identification entry) id); reflexivity.
Qed.

Lemma get_rsa_private_key_first_match id (this : manager_t) :
  result (get_rsa_private_key id) this
  = first_match (fun entry => equals (private_key_identification entry) id)
      private_key (rsa_private_keys this).
Proof.
  unfold get_rsa_private_key.
  rewrite result_bind, result_bind, result_ret.
  apply iterate_first_match.
  - intros entry s. unfold final, bind, equals_call, ret.
    destruct (equals (private_key_identification entry) id); reflexivity.
  - intros entry s. unfold result, bind, equals_call, ret.
    destruct (equals (private_key_identification entry) id); reflexivity.
Qed.

(** The session lookup as a first match, for either kind of local
    identity. *)
Definition id_entry_matches (init_config_ : init_config_t host_t)
    (other_id : identification_t) (my_id : option identification_t)
    (entry : entry_t) : bool :=
  match my_id with
  | None => remote_id_entry_matches init_config_ other_id entry
  | Some my_id => both_ids_entry_matches init_config_ other_id my_id entry
  end.

Lemma get_sa_config_for_id_first_match ic other_id my_id (this : manager_t) :
  result (get_sa_config_for_init_config_and_id ic other_id my_id) this
  = first_match (id_entry_matches ic other_id my_id) sa_config
      (configurations this).
Proof.
  destruct my_id as [my_id|]; simpl.
  - apply get_sa_config_for_id_first_match_some.
  - apply get_sa_config_for_id_first_match_none.
Qed.

Lemma first_match_app_success {A R : Type} (accepts : A -> bool) (select : A -> R)
    (l l' : list A) v :
  first_match accepts select l = (SUCCESS, v) ->
  first_match accepts select (l ++ l') = (SUCCESS, v).
Proof.
  unfold first_match. induction l as [|x rest IH]; simpl.
  - discriminate.
  - destruct (accepts x); [intros H; exact H | exact IH].
Qed.

Lemma first_match_app_not_found {A R : Type} (accepts : A -> bool)
    (select : A -> R) (l l' : list A) :
  (forall e, In e l -> accepts e = false) ->
  first_match accepts select (l ++ l') = first_match accepts select l'.
Proof.
  unfold first_match. induction l as [|x rest IH]; simpl; intros Hnone.
  - reflexivity.
  - rewrite (Hnone x) by now left. apply IH. intros e He. apply Hnone. now right.
Qed.

Lemma first_match_success_in {A R : Type} (accepts : A -> bool) (select : A -> R)
    (l : list A) v :
  first_match accepts select l = (SUCCESS, Some v) ->
  exists e, In e l /\ accepts e = true /\ v = select e.
Proof.
  unfold first_match. destruct (find accepts l) as [e|] eqn:Hfind; [|discriminate].
  intros H. inversion H. subst v. apply find_some in Hfind as [Hin Hacc].
  exists e. repeat split; assumption.
Qed.

Lemma first_match_cases {A R : Type} (accepts : A -> bool) (select : A -> R)
    (l : list A) :
  (exists e, first_match accepts select l = (SUCCESS, Some (select e)))
  \/ first_match accepts select l = (NOT_FOUND, None).
Proof.
  unfold first_match. destruct (find accepts l) as [e|].
  - left. exists e. reflexivity.
  - right. reflexivity.
Qed.

(** X1.  Registrations only append: after any sequence of the four
    registration methods each of the four scanned lists is the list
    before followed by the entries the sequence registers for it, in the
    order of the calls, and the three timing values are those before. *)
Theorem registrations_append_in_call_order :
  forall (rs : list registration_t) (this : manager_t),
    configurations (final (register_all rs) this)
    = configurations this ++ registered_configurations rs
    /\ preshared_secrets (final (register_all rs) this)
       = preshared_secrets this ++ registered_preshared_secrets rs
    /\ rsa_public_keys (final (register_all rs) this)
       = rsa_public_keys this ++ registered_rsa_public_keys rs
    /\ rsa_private_keys (final (register_all rs) this)
       = rsa_private_keys this ++ registered_rsa_private_keys rs
    /\ max_retransmit_count (final (register_all rs) this)
       = max_retransmit_count this
    /\ first_retransmit_timeout (final (register_all rs) this)
       = first_retransmit_timeout this
    /\ half_open_ike_sa_timeout (final (register_all rs) this)
       = half_open_ike_sa_timeout this.
Proof.
  intros rs this. apply registered_after_register_all.
Qed.

(** X2.  A later registration never overrides an earlier one: a
    configuration lookup (by hosts, by name, by identities) that
    succeeds keeps its answer after any further sequence of
    registrations. *)
Theorem configuration_lookups_keep_their_answer :
  forall (rs : list registration_t) (this : manager_t),
    (forall my_host other_host v,
        result (get_init_config_for_host my_host other_host) this = (SUCCESS, v) ->
        result (get_init_config_for_host my_host other_host)
          (final (register_all rs) this) = (SUCCESS, v))
    /\ (forall name_ v,
          result (get_init_config_for_name name_) this = (SUCCESS, v) ->
          result (get_init_config_for_name name_) (final (register_all rs) this)
          = (SUCCESS, v))
    /\ (forall name_ v,
          result (get_sa_config_for_name name_) this = (SUCCESS, v) ->
          result (get_sa_config_for_name name_) (final (register_all rs) this)
          = (SUCCESS, v))
    /\ (forall init_config_ other_id my_id v,
          result (get_sa_config_for_init_config_and_id init_config_ other_id my_id)
            this = (SUCCESS, v) ->
          result (get_sa_config_for_init_config_and_id init_config_ other_id my_id)
            (final (register_all rs) this) = (SUCCESS, v)).
Proof.
  intros rs this.
  destruct (registered_after_register_all rs this) as (Hc & _).
  split; [|split; [|split]].
  - intros my_host other_host v.
    rewrite !get_init_config_for_host_first_match, Hc.
    apply first_match_app_success.
  - intros name_ v.
    rewrite !get_init_config_for_name_first_match, Hc.
    apply first_match_app_success.
  - intros name_ v.
    rewrite !get_sa_config_for_name_first_match, Hc.
    apply first_match_app_success.
  - intros ic other_id my_id v.
    rewrite !get_sa_config_for_id_first_match, Hc.
    apply first_match_app_success.
Qed.

(** X3.  The same for the credentials: a lookup of a preshared secret,
    an RSA public key or an RSA private key that succeeds keeps its
    answer after any further sequence of registrations. *)
Theorem credential_lookups_keep_their_answer :
  forall (rs : list registration_t) (this : manager_t) (id : identification_t),
    (forall v,
        result (get_shared_secret id) this = (SUCCESS, v) ->
        result (get_shared_secret id) (final (register_all rs) this) = (SUCCESS, v))
    /\ (forall v,
          result (get_rsa_public_key id) this = (SUCCESS, v) ->
          result (get_rsa_public_key id) (final (register_all rs) this)
          = (SUCCESS, v))
    /\ (forall v,
          result (get_rsa_private_key id) this = (SUCCESS, v) ->
          result (get_rsa_private_key id) (final (register_all rs) this)
          = (SUCCESS, v)).
Proof.
  intros rs this id.
  destruct (registered_after_register_all rs this) as (_ & Hs & Hpub & Hpriv & _).
  split; [|split]; intros v.
  - rewrite !get_shared_secret_first_match, Hs. apply first_match_app_success.
  - rewrite !get_rsa_public_key_first_match, Hpub. apply first_match_app_success.
  - rewrite !get_rsa_private_key_first_match, Hpriv. apply first_match_app_success.
Qed.

Lemma first_match_snoc {A R : Type} (accepts : A -> bool) (select : A -> R)
    (l : list A) (x : A) :
  first_match accepts select (l ++ [x])
  = match first_match accepts select l with
    | (SUCCESS, v) => (SUCCESS, v)
    | _ => if accepts x then (SUCCESS, Some (select x)) else (NOT_FOUND, None)
    end.
Proof.
  unfold first_match. induction l as [|y rest IH]; simpl.
  - destruct (accepts x); reflexivity.
  - destruct (accepts y); [reflexivity | exact IH].
Qed.

(** X4.  The four stores are separate and the timing is fixed: a
    sequence of registrations that registers no configuration leaves
    every configuration lookup as it was, one that registers no
    preshared secret (no RSA public key, no RSA private key) leaves the
    lookup of preshared secrets (RSA public keys, RSA private keys) as
    it was, and no registration changes a retransmit timeout or the
    half-open timeout. *)
Theorem registrations_touch_only_their_store :
  forall (rs : list registration_t) (this : manager_t),
    (registered_configurations rs = [] ->
     (forall my_host other_host,
         result (get_init_config_for_host my_host other_host)
           (final (register_all rs) this)
         = result (get_init_config_for_host my_host other_host) this)
     /\ (forall name_,
           result (get_init_config_for_name name_) (final (register_all rs) this)
           = result (get_init_config_for_name name_) this)
     /\ (forall name_,
           result (get_sa_config_for_name name_) (final (register_all rs) this)
           = result (get_sa_config_for_name name_) this)
     /\ (forall init_config_ other_id my_id,
           result (get_sa_config_for_init_config_and_id init_config_ other_id my_id)
             (final (register_all rs) this)
           = result (get_sa_config_for_init_config_and_id init_config_ other_id
                       my_id) this))
    /\ (registered_preshared_secrets rs = [] ->
        forall id,
          result (get_shared_secret id) (final (register_all rs) this)
          = result (get_shared_secret id) this)
    /\ (registered_rsa_public_keys rs = [] ->
        forall id,
          result (get_rsa_public_key id) (final (register_all rs) this)
          = result (get_rsa_public_key id) this)
    /\ (registered_rsa_private_keys rs = [] ->
        forall id,
          result (get_rsa_private_key id) (final (register_all rs) this)
          = result (get_rsa_private_key id) this)
    /\ (forall retransmit_count,
          result (get_retransmit_timeout retransmit_count)
            (final (register_all rs) this)
          = result (get_retransmit_timeout retransmit_count) this)
    /\ result get_half_open_ike_sa_timeout (final (register_all rs) this)
       = result get_half_open_ike_sa_timeout this.
Proof.
  intros rs this.
  destruct (registered_after_register_all rs this)
    as (Hc & Hs & Hpub & Hpriv & Hmax & Hfirst & Hhalf).
  split; [|split; [|split; [|split; [|split]]]].
  - intros Hnone. rewrite Hnone, app_nil_r in Hc.
    split; [|split; [|split]]; intros.
    + now rewrite !get_init_config_for_host_first_match, Hc.
    + now rewrite !get_init_config_for_name_first_match, Hc.
    + now rewrite !get_sa_config_for_name_first_match, Hc.
    + now rewrite !get_sa_config_for_id_first_match, Hc.
  - intros Hnone id. rewrite Hnone, app_nil_r in Hs.
    now rewrite !get_shared_secret_first_match, Hs.
  - intros Hnone id. rewrite Hnone, app_nil_r in Hpub.
    now rewrite !get_rsa_public_key_first_match, Hpub.
  - intros Hnone id. rewrite Hnone, app_nil_r in Hpriv.
    now rewrite !get_rsa_private_key_first_match, Hpriv.
  - intros rc. now rewrite !get_retransmit_timeout_result, Hmax, Hfirst.
  - unfold get_half_open_ike_sa_timeout. rewrite !result_bind, !result_ret.
    exact Hhalf.
Qed.

(** X5.  [get_rsa_public_key] returns the key of the first entry, in the
    order of registration, whose identification equals the queried one,
    and [NOT_FOUND] exactly when there is none.  After
    [add_new_rsa_public_key] the lookup answers as before when it
    succeeded before; otherwise it returns the key set from the
    registered chunk when the registered identification equals the
    query, and [NOT_FOUND] when it does not. *)
Theorem rsa_public_key_store_first_match_round_trip :
  forall (this : manager_t) (id : identification_t),
    result (get_rsa_public_key id) this
    = first_match (fun entry => equals (public_key_identification entry) id)
        public_key (rsa_public_keys this)
    /\ ((forall e, In e (rsa_public_keys this) ->
                   equals (public_key_identification e) id = false) <->
        result (get_rsa_public_key id) this = (NOT_FOUND, None))
    /\ (forall type id_string key,
          result (get_rsa_public_key id)
            (final (add_new_rsa_public_key type id_string key) this)
          = match result (get_rsa_public_key id) this with
            | (SUCCESS, v) => (SUCCESS, v)
            | _ =>
                if equals (identification_create_from_string type id_string) id
                then (SUCCESS, Some (rsa_public_key_set_key key))
                else (NOT_FOUND, None)
            end).
Proof.
  intros this id. split; [|split].
  - apply get_rsa_public_key_first_match.
  - rewrite get_rsa_public_key_first_match. apply first_match_not_found.
  - intros type id_string key.
    rewrite !get_rsa_public_key_first_match.
    change (rsa_public_keys (final (add_new_rsa_public_key type id_string key) this))
      with (rsa_public_keys this
            ++ [{| public_key_identification :=
                     identification_create_from_string type id_string;
                   public_key := rsa_public_key_set_key key |}]).
    rewrite first_match_snoc. reflexivity.
Qed.

(** X6.  [get_rsa_private_key] returns the key of the first entry, in
    the order of registration, whose identification equals the queried
    one, and [NOT_FOUND] exactly when there is none.  After
    [add_new_rsa_private_key] the lookup answers as before when it
    succeeded before; otherwise it returns the key set from the
    registered chunk when the registered identification equals the
    query, and [NOT_FOUND] when it does not. *)
Theorem rsa_private_key_store_first_match_round_trip :
  forall (this : manager_t) (id : identification_t),
    result (get_rsa_private_key id) this
    = first_match (fun entry => equals (private_key_identification entry) id)
        private_key (rsa_private_keys this)
    /\ ((forall e, In e (rsa_private_keys this) ->
                   equals (private_key_identification e) id = false) <->
        result (get_rsa_private_key id) this = (NOT_FOUND, None))
    /\ (forall type id_string key,
          result (get_rsa_private_key id)
            (final (add_new_rsa_private_key type id_string key) this)
          = match result (get_rsa_private_key id) this with
            | (SUCCESS, v) => (SUCCESS, v)
            | _ =>
                if equals (identification_create_from_string type id_string) id
                then (SUCCESS, Some (rsa_private_key_set_key key))
                else (NOT_FOUND, None)
            end).
Proof.
  intros this id. split; [|split].
  - apply get_rsa_private_key_first_match.
  - rewrite get_rsa_private_key_first_match. apply first_match_not_found.
  - intros type id_string key.
    rewrite !get_rsa_private_key_first_match.
    change (rsa_private_keys
              (final (add_new_rsa_private_key type id_string key) this))
      with (rsa_private_keys this
            ++ [{| private_key_identification :=
                     identification_create_from_string type id_string;
                   private_key := rsa_private_key_set_key key |}]).
    rewrite first_match_snoc. reflexivity.
Qed.

(** X7.  Registering a configuration under a name makes the name
    resolvable, without replacing an older entry of that name: after
    [add_new_configuration] a name lookup that succeeded before answers
    as before; one that failed before returns the new [init_config] (the
    new [sa_config]) when the queried name is the registered name as a C
    string, and fails otherwise.  So the registered name itself always
    resolves afterwards, to the new objects when no older entry has that
    name. *)
Theorem add_new_configuration_resolves_name_unless_shadowed :
  forall (this : manager_t) (new_name queried : string)
         (ic : init_config_t host_t) (sc : sa_config_t identification_t),
    result (get_init_config_for_name queried)
      (final (add_new_configuration new_name ic sc) this)
    = match result (get_init_config_for_name queried) this with
      | (SUCCESS, v) => (SUCCESS, v)
      | _ => if String.eqb (strcpy new_name) (strcpy queried)
             then (SUCCESS, Some ic) else (NOT_FOUND, None)
      end
    /\ result (get_sa_config_for_name queried)
         (final (add_new_configuration new_name ic sc) this)
       = match result (get_sa_config_for_name queried) this with
         | (SUCCESS, v) => (SUCCESS, v)
         | _ => if String.eqb (strcpy new_name) (strcpy queried)
                then (SUCCESS, Some sc) else (NOT_FOUND, None)
         end
    /\ fst (result (get_init_config_for_name new_name)
              (final (add_new_configuration new_name ic sc) this)) = SUCCESS
    /\ fst (result (get_sa_config_for_name new_name)
              (final (add_new_configuration new_name ic sc) this)) = SUCCESS
    /\ ((forall e, In e (configurations this) ->
                   strcpy (name e) <> strcpy new_name) ->
        result (get_init_config_for_name new_name)
          (final (add_new_configuration new_name ic sc) this)
        = (SUCCESS, Some ic)
        /\ result (get_sa_config_for_name new_name)
             (final (add_new_configuration new_name ic sc) this)
           = (SUCCESS, Some sc)).
Proof.
  intros this new_name queried ic sc.
  assert (Hinit : forall q,
    result (get_init_config_for_name q)
      (final (add_new_configuration new_name ic sc) this)
    = match result (get_init_config_for_name q) this with
      | (SUCCESS, v) => (SUCCESS, v)
      | _ => if String.eqb (strcpy new_name) (strcpy q)
             then (SUCCESS, Some ic) else (NOT_FOUND, None)
      end).
  { intros q. rewrite !get_init_config_for_name_first_match.
    rewrite configurations_add_new_configuration, first_match_snoc.
    unfold name_entry_matches, configuration_entry_create. simpl.
    rewrite strcpy_idem. reflexivity. }
  assert (Hsa : forall q,
    result (get_sa_config_for_name q)
      (final (add_new_configuration new_name ic sc) this)
    = match result (get_sa_config_for_name q) this with
      | (SUCCESS, v) => (SUCCESS, v)
      | _ => if String.eqb (strcpy new_name) (strcpy q)
             then (SUCCESS, Some sc) else (NOT_FOUND, None)
      end).
  { intros q. rewrite !get_sa_config_for_name_first_match.
    rewrite configurations_add_new_configuration, first_match_snoc.
    unfold name_entry_matches, configuration_entry_create. simpl.
    rewrite strcpy_idem. reflexivity. }
  split; [apply Hinit|]. split; [apply Hsa|].
  split; [|split].
  - rewrite Hinit, String.eqb_refl.
    destruct (result (get_init_config_for_name new_name) this) as [[| |] v];
      reflexivity.
  - rewrite Hsa, String.eqb_refl.
    destruct (result (get_sa_config_for_name new_name) this) as [[| |] v];
      reflexivity.
  - intros Hfresh.
    assert (Hnone : forall e : entry_t, In e (configurations this) ->
                                        name_entry_matches new_name e = false).
    { intros e He. unfold name_entry_matches. apply String.eqb_neq.
      now apply Hfresh. }
    rewrite Hinit, Hsa.
    rewrite get_init_config_for_name_first_match,
      get_sa_config_for_name_first_match.
    rewrite (proj1 (first_match_not_found _ init_config _) Hnone).
    rewrite (proj1 (first_match_not_found _ sa_config _) Hnone).
    rewrite String.eqb_refl. split; reflexivity.
Qed.

(** X8.  Registering a configuration adds a fallback for the lookups by
    hosts and by identities: after [add_new_configuration] such a lookup
    answers as before when it succeeded before, and otherwise returns
    the new [init_config] (the new [sa_config]) when the new entry
    matches the query, and fails when it does not. *)
Theorem add_new_configuration_adds_a_fallback :
  forall (this : manager_t) (new_name : string)
         (ic : init_config_t host_t) (sc : sa_config_t identification_t),
    (forall my_host other_host,
        result (get_init_config_for_host my_host other_host)
          (final (add_new_configuration new_name ic sc) this)
        = match result (get_init_config_for_host my_host other_host) this with
          | (SUCCESS, v) => (SUCCESS, v)
          | _ =>
              if (ip_is_equal (get_other_host ic) other_host
                  || is_default_route (get_other_host ic))
                 && (is_default_route (get_my_host ic)
                     || ip_is_equal (get_my_host ic) my_host)
              then (SUCCESS, Some ic) else (NOT_FOUND, None)
          end)
    /\ (forall init_config_ other_id my_id,
          result (get_sa_config_for_init_config_and_id init_config_ other_id my_id)
            (final (add_new_configuration new_name ic sc) this)
          = match result (get_sa_config_for_init_config_and_id init_config_
                            other_id my_id) this with
            | (SUCCESS, v) => (SUCCESS, v)
            | _ =>
                if (init_config_addr ic =? init_config_addr init_config_)%N
                   && equals (get_other_id sc) other_id
                   && match my_id with
                      | None => true
                      | Some my_id => equals (get_my_id sc) my_id
                      end
                then (SUCCESS, Some sc) else (NOT_FOUND, None)
            end).
Proof.
  intros this new_name ic sc. split.
  - intros my_host other_host.
    rewrite !get_init_config_for_host_first_match.
    rewrite configurations_add_new_configuration, first_match_snoc.
    unfold host_entry_matches, configuration_entry_create. simpl.
    destruct (first_match _ _ (configurations this)) as [[| |] v];
      try reflexivity;
      destruct (ip_is_equal (get_other_host ic) other_host);
      destruct (is_default_route (get_other_host ic));
      destruct (is_default_route (get_my_host ic));
      destruct (ip_is_equal (get_my_host ic) my_host); reflexivity.
  - intros init_config_ other_id my_id.
    rewrite !get_sa_config_for_id_first_match.
    rewrite configurations_add_new_configuration, first_match_snoc.
    unfold id_entry_matches, both_ids_entry_matches, remote_id_entry_matches,
      configuration_entry_create. simpl.
    destruct my_id as [my_id|]; [reflexivity|].
    rewrite andb_true_r. reflexivity.
Qed.

Lemma init_config_referenced_in (this : manager_t) (e : entry_t) :
  In e (configurations this) ->
  init_config_referenced (init_config_addr (init_config e)) this = true.
Proof.
  intros He. unfold init_config_referenced. apply existsb_exists.
  exists e. split; [exact He | apply N.eqb_refl].
Qed.

Lemma sa_config_referenced_in (this : manager_t) (e : entry_t) :
  In e (configurations this) ->
  sa_config_referenced (sa_config_addr (sa_config e)) this = true.
Proof.
  intros He. unfold sa_config_referenced. apply existsb_exists.
  exists e. split; [exact He | apply N.eqb_refl].
Qed.

(** X9.  What a lookup hands out is owned by the manager: on a manager
    made by [configuration_manager_create] and any sequence of
    registrations, the [init_config_t] object a lookup by hosts or by
    name returns, and the [sa_config_t] object a lookup by name or by
    identities returns, is in the list of owned objects exactly once,
    and [destroy] runs its destructor exactly once. *)
Theorem lookups_return_owned_objects :
  forall (first max half : Z)
         (default_init_config : init_config_t host_t)
         (default_sa_config : sa_config_t identification_t)
         (public_key_1 private_key_1 : chunk_t)
         (registrations : list registration_t),
    let this : manager_t :=
      final (register_all registrations)
        (configuration_manager_create first max half
           default_init_config default_sa_config public_key_1 private_key_1) in
    let owned_init p :=
      occurrences p (map init_config_addr (init_configs this)) = 1
      /\ occurrences p (init_config_destroys (calls destroy this)) = 1 in
    let owned_sa p :=
      occurrences p (map sa_config_addr (sa_configs this)) = 1
      /\ occurrences p (sa_config_destroys (calls destroy this)) = 1 in
    (forall my_host other_host ic,
        result (get_init_config_for_host my_host other_host) this
        = (SUCCESS, Some ic) ->
        owned_init (init_config_addr ic))
    /\ (forall name_ ic,
          result (get_init_config_for_name name_) this = (SUCCESS, Some ic) ->
          owned_init (init_config_addr ic))
    /\ (forall name_ sc,
          result (get_sa_config_for_name name_) this = (SUCCESS, Some sc) ->
          owned_sa (sa_config_addr sc))
    /\ (forall init_config_ other_id my_id sc,
          result (get_sa_config_for_init_config_and_id init_config_ other_id my_id)
            this = (SUCCESS, Some sc) ->
          owned_sa (sa_config_addr sc)).
Proof.
  intros first max half ic0 sc0 pk sk rs this owned_init owned_sa.
  assert (Hown : ownership this).
  { apply ownership_register_all, ownership_configuration_manager_create. }
  destruct Hown as [Hinit Hsa].
  assert (Hi : forall e : entry_t, In e (configurations this) ->
                                   owned_init (init_config_addr (init_config e))).
  { intros e He. unfold owned_init.
    rewrite init_config_destroys_destroy, Hinit.
    rewrite (init_config_referenced_in this e He). split; reflexivity. }
  assert (Hs : forall e : entry_t, In e (configurations this) ->
                                   owned_sa (sa_config_addr (sa_config e))).
  { intros e He. unfold owned_sa.
    rewrite sa_config_destroys_destroy, Hsa.
    rewrite (sa_config_referenced_in this e He). split; reflexivity. }
  split; [|split; [|split]].
  - intros my_host other_host ic.
    rewrite get_init_config_for_host_first_match. intros H.
    apply first_match_success_in in H as (e & He & _ & ->). now apply Hi.
  - intros name_ ic.
    rewrite get_init_config_for_name_first_match. intros H.
    apply first_match_success_in in H as (e & He & _ & ->). now apply Hi.
  - intros name_ sc.
    rewrite get_sa_config_for_name_first_match. intros H.
    apply first_match_success_in in H as (e & He & _ & ->). now apply Hs.
  - intros ic other_id my_id sc.
    rewrite get_sa_config_for_id_first_match. intros H.
    apply first_match_success_in in H as (e & He & _ & ->). now apply Hs.
Qed.

Lemma first_match_weaker {A R : Type} (strong weak : A -> bool) (select : A -> R)
    (l : list A) :
  (forall e, strong e = true -> weak e = true) ->
  (first_match weak select l = (NOT_FOUND, None) ->
   first_match strong select l = (NOT_FOUND, None))
  /\ (forall v, first_match strong select l = (SUCCESS, Some v) ->
      exists v', first_match weak select l = (SUCCESS, Some v')).
Proof.
  intros Himp. split.
  - intros Hweak. apply first_match_not_found. intros e He.
    destruct (strong e) eqn:Hs; [|reflexivity].
    apply Himp in Hs.
    rewrite (proj2 (first_match_not_found weak select l) Hweak e He) in Hs.
    discriminate.
  - intros v Hstrong.
    destruct (first_match_cases weak select l) as [[e He]|Hnone].
    + exists (select e). exact He.
    + apply first_match_success_in in Hstrong as (e & He & Hs & _).
      apply Himp in Hs.
      rewrite (proj2 (first_match_not_found weak select l) Hnone e He) in Hs.
      discriminate.
Qed.

(** X10.  In [get_sa_config_for_init_config_and_id] the local identity
    only narrows the search, and the [init_config_t] is compared by
    address: when the lookup with a local identity succeeds, the lookup
    without one succeeds too; when the lookup without one fails, the
    lookup with any local identity fails; and for an [init_config_t]
    whose address no configuration entry refers to the lookup fails,
    whatever the identities and whatever hosts the object carries. *)
Theorem local_identity_narrows_and_init_config_is_by_address :
  forall (this : manager_t) (init_config_ : init_config_t host_t)
         (other_id : identification_t),
    (forall my_id sc,
        result (get_sa_config_for_init_config_and_id init_config_ other_id
                  (Some my_id)) this = (SUCCESS, Some sc) ->
        exists sc',
          result (get_sa_config_for_init_config_and_id init_config_ other_id None)
            this = (SUCCESS, Some sc'))
    /\ (result (get_sa_config_for_init_config_and_id init_config_ other_id None)
          this = (NOT_FOUND, None) ->
        forall my_id,
          result (get_sa_config_for_init_config_and_id init_config_ other_id
                    (Some my_id)) this = (NOT_FOUND, None))
    /\ ((forall e, In e (configurations this) ->
                   init_config_addr (init_config e)
                   <> init_config_addr init_config_) ->
        forall my_id,
          result (get_sa_config_for_init_config_and_id init_config_ other_id my_id)
            this = (NOT_FOUND, None)).
Proof.
  intros this ic other_id.
  assert (Himp : forall my_id (e : entry_t),
             both_ids_entry_matches ic other_id my_id e = true ->
             remote_id_entry_matches ic other_id e = true).
  { intros my_id e H. unfold both_ids_entry_matches in H.
    now apply andb_true_iff in H as [H _]. }
  split; [|split].
  - intros my_id sc.
    rewrite get_sa_config_for_id_first_match_some,
      get_sa_config_for_id_first_match_none.
    apply (first_match_weaker _ _ sa_config (configurations this) (Himp my_id)).
  - intros Hnone my_id. revert Hnone.
    rewrite get_sa_config_for_id_first_match_some,
      get_sa_config_for_id_first_match_none.
    apply (first_match_weaker _ _ sa_config (configurations this) (Himp my_id)).
  - intros Hother my_id. rewrite get_sa_config_for_id_first_match.
    apply first_match_not_found. intros e He.
    assert (Hremote : remote_id_entry_matches ic other_id e = false).
    { unfold remote_id_entry_matches.
      destruct (N.eqb_spec (init_config_addr (init_config e)) (init_config_addr ic))
        as [Heq|_]; [|reflexivity].
      exfalso. exact (Hother e He Heq). }
    destruct my_id as [my_id|]; simpl; [|exact Hremote].
    unfold both_ids_entry_matches. now rewrite Hremote.
Qed.

(** The calls that ask a collaborator a question, as opposed to the
    destructor calls. *)
Definition predicate_call
    (c : call host_t identification_t rsa_public_key_t rsa_private_key_t) : bool :=
  match c with
  | call_ip_is_equal _ _ _ => true
  | call_is_default_route _ _ => true
  | call_equals _ _ => true
  | _ => false
  end.







Lemma flat_map_singleton {A B : Type} (f : A -> B) (l : list A) :
  flat_map (fun x => [f x]) l = map f l.
Proof. induction l as [|x rest IH]; simpl; [reflexivity | now rewrite IH]. Qed.

(** The calls that free or destroy something. *)
Definition releases
    (c : call host_t identification_t rsa_public_key_t rsa_private_key_t) : bool :=
  negb (predicate_call c).

(** X12.  [destroy] releases everything the manager holds, once and in
    a fixed order.  For every configuration entry it frees the name and
    the entry, then destroys the list of entries; it destroys every
    owned [sa_config_t] object, then their list; every owned
    [init_config_t] object, then their list; for every preshared secret
    the identification, the chunk and the entry, then their list; for
    every RSA private key and then every RSA public key the
    identification, the key and the entry, then the list.  Each list is
    gone through from its first element on and is empty when it is
    destroyed.  The logger is handed back next, and the manager itself
    is freed by the last call.  No predicate is called. *)
Theorem destroy_releases_everything_in_order :
  forall (this : manager_t),
    calls destroy this
    = flat_map (fun entry =>
        [call_allocator_free (freed_name (name entry));
         call_allocator_free (freed_configuration_entry entry)])
        (configurations this)
      ++ [call_linked_list_destroy configurations_list 0]
      ++ map (fun c => call_sa_config_destroy c) (sa_configs this)
      ++ [call_linked_list_destroy sa_configs_list 0]
      ++ map (fun c => call_init_config_destroy c) (init_configs this)
      ++ [call_linked_list_destroy init_configs_list 0]
      ++ flat_map (fun entry =>
           [call_identification_destroy (identification entry);
            call_allocator_free_chunk (preshared_secret entry);
            call_allocator_free (freed_preshared_secret_entry entry)])
           (preshared_secrets this)
      ++ [call_linked_list_destroy preshared_secrets_list 0]
      ++ flat_map (fun entry =>
           [call_identification_destroy (private_key_identification entry);
            call_rsa_private_key_destroy (private_key entry);
            call_allocator_free (freed_rsa_private_key_entry entry)])
           (rsa_private_keys this)
      ++ [call_linked_list_destroy rsa_private_keys_list 0]
      ++ flat_map (fun entry =>
           [call_identification_destroy (public_key_identification entry);
            call_rsa_public_key_destroy (public_key entry);
            call_allocator_free (freed_rsa_public_key_entry entry)])
           (rsa_public_keys this)
      ++ [call_linked_list_destroy rsa_public_keys_list 0]
      ++ [call_destroy_logger; call_allocator_free freed_this]
    /\ last (calls destroy this) call_destroy_logger
       = call_allocator_free freed_this
    /\ forallb releases (calls destroy this) = true
    /\ List.length (calls destroy this)
       = 2 * List.length (configurations this)
         + List.length (sa_configs this)
         + List.length (init_configs this)
         + 3 * (List.length (preshared_secrets this)
                + List.length (rsa_private_keys this)
                + List.length (rsa_public_keys this))
         + 8.
Proof.
  intros this.
  assert (Hcalls := calls_destroy this).
  rewrite !flat_map_singleton in Hcalls.
  split; [exact Hcalls|]. rewrite Hcalls. split; [|split].
  - change [call_destroy_logger; call_allocator_free freed_this]
      with ([@call_destroy_logger host_t identification_t
               rsa_public_key_t rsa_private_key_t]
            ++ [call_allocator_free freed_this]).
    rewrite !app_assoc. apply last_last.
  - rewrite !forallb_app.
    assert (Hflat : forall (A : Type)
                      (f : A -> list (call host_t identification_t
                                        rsa_public_key_t rsa_private_key_t))
                      (l : list A),
               (forall x, forallb releases (f x) = true) ->
               forallb releases (flat_map f l) = true).
    { intros A f l Hf. induction l as [|x rest IH]; simpl; [reflexivity|].
      now rewrite forallb_app, Hf, IH. }
    rewrite !Hflat by reflexivity.
    rewrite <- !flat_map_singleton, !Hflat by reflexivity.
    reflexivity.
  - assert (Hlen : forall (A : Type) (k : nat)
                     (f : A -> list (call host_t identification_t
                                       rsa_public_key_t rsa_private_key_t))
                     (l : list A),
               (forall x, List.length (f x) = k) ->
               List.length (flat_map f l) = k * List.length l).
    { intros A k f l Hf. induction l as [|x rest IH]; simpl.
      - now rewrite Nat.mul_0_r.
      - now rewrite length_app, Hf, IH, Nat.mul_succ_r, Nat.add_comm. }
    rewrite !length_app, !length_map.
    rewrite (Hlen _ 2) by reflexivity.
    rewrite !(Hlen _ 3) by reflexivity.
    simpl List.length. lia.
Qed.

(** X13.  A manager fresh from [configuration_manager_create] holds the
    default configuration and nothing else: one configuration entry
    named "localhost" for the two default objects, each of them owned,
    one RSA public and one RSA private key for the IPv4 identification
    "127.0.0.1", no preshared secret, and the timing values it was
    given, reduced to 32 bits.  So "localhost" resolves to the default
    objects, no preshared secret is found for any identification, an RSA
    key is found exactly for the identifications the loopback one equals,
    and the half-open timeout is the configured one. *)
Theorem configuration_manager_create_loads_default_config :
  forall (first max half : Z)
         (default_init_config : init_config_t host_t)
         (default_sa_config : sa_config_t identification_t)
         (public_key_1 private_key_1 : chunk_t),
    let this : manager_t :=
      configuration_manager_create first max half
        default_init_config default_sa_config public_key_1 private_key_1 in
    let loopback := identification_create_from_string ID_IPV4_ADDR "127.0.0.1" in
    this
    = {| configurations :=
           [{| name := "localhost";
               init_config := default_init_config;
               sa_config := default_sa_config |}];
         init_configs := [default_init_config];
         sa_configs := [default_sa_config];
         preshared_secrets := [];
         rsa_private_keys :=
           [{| private_key_identification := loopback;
               private_key := rsa_private_key_set_key private_key_1 |}];
         rsa_public_keys :=
           [{| public_key_identification := loopback;
               public_key := rsa_public_key_set_key public_key_1 |}];
         max_retransmit_count := (max mod 2 ^ 32)%Z;
         first_retransmit_timeout := (first mod 2 ^ 32)%Z;
         half_open_ike_sa_timeout := (half mod 2 ^ 32)%Z |}
    /\ result (get_init_config_for_name "localhost") this
       = (SUCCESS, Some default_init_config)
    /\ result (get_sa_config_for_name "localhost") this
       = (SUCCESS, Some default_sa_config)
    /\ (forall id, result (get_shared_secret id) this = (NOT_FOUND, None))
    /\ (forall id,
          result (get_rsa_public_key id) this
          = if equals loopback id
            then (SUCCESS, Some (rsa_public_key_set_key public_key_1))
            else (NOT_FOUND, None))
    /\ (forall id,
          result (get_rsa_private_key id) this
          = if equals loopback id
            then (SUCCESS, Some (rsa_private_key_set_key private_key_1))
            else (NOT_FOUND, None))
    /\ result get_half_open_ike_sa_timeout this = (half mod 2 ^ 32)%Z.
Proof.
  intros first max half ic sc pk sk this loopback.
  assert (Hthis : this
    = {| configurations :=
           [{| name := "localhost"; init_config := ic; sa_config := sc |}];
         init_configs := [ic];
         sa_configs := [sc];
         preshared_secrets := [];
         rsa_private_keys :=
           [{| private_key_identification := loopback;
               private_key := rsa_private_key_set_key sk |}];
         rsa_public_keys :=
           [{| public_key_identification := loopback;
               public_key := rsa_public_key_set_key pk |}];
         max_retransmit_count := (max mod 2 ^ 32)%Z;
         first_retransmit_timeout := (first mod 2 ^ 32)%Z;
         half_open_ike_sa_timeout := (half mod 2 ^ 32)%Z |}).
  { unfold this, configuration_manager_create, load_default_config.
    rewrite !final_bind, final_add_new_configuration. reflexivity. }
  split; [exact Hthis|].
  split; [|split; [|split; [|split; [|split]]]].
  - rewrite get_init_config_for_name_first_match, Hthis. reflexivity.
  - rewrite get_sa_config_for_name_first_match, Hthis. reflexivity.
  - intros id. rewrite get_shared_secret_first_match, Hthis. reflexivity.
  - intros id. rewrite get_rsa_public_key_first_match, Hthis.
    unfold first_match. simpl. destruct (equals loopback id); reflexivity.
  - intros id. rewrite get_rsa_private_key_first_match, Hthis.
    unfold first_match. simpl. destruct (equals loopback id); reflexivity.
  - rewrite Hthis. reflexivity.
Qed.

Lemma pow2_multiple_of_modulus (n : Z) :
  (32 <= n)%Z -> ((2 ^ n) mod 2 ^ 32 = 0)%Z.
Proof.
  intros Hn. replace n with (32 + (n - 32))%Z by lia.
  rewrite Z.pow_add_r by lia. rewrite Z.mul_comm.
  apply Z.mod_mul. lia.
Qed.

(** X14.  With the [int] arithmetic of the loop wrapping at 32 bits, the
    retransmit timeout doubles modulo 2^32 from one retransmit count to
    the next whenever the next count is accepted too, and it is 0 for
    every accepted retransmit count from 32 on, the last accepted one
    included: the doubling has shifted the first timeout out of the 32
    bits.  A count is accepted when the maximal count is 0 or the count
    is not above it. *)
Theorem get_retransmit_timeout_wraps_to_zero :
  forall (this : manager_t) (retransmit_count : Z),
    (0 <= retransmit_count < 2 ^ 32)%Z ->
    (max_retransmit_count this = 0
     \/ retransmit_count <= max_retransmit_count this)%Z ->
    (exists timeout,
        result (get_retransmit_timeout retransmit_count) this
        = (SUCCESS, Some timeout)
        /\ (0 <= timeout < 2 ^ 32)%Z
        /\ ((retransmit_count + 1 < 2 ^ 32)%Z ->
            (max_retransmit_count this = 0
             \/ retransmit_count + 1 <= max_retransmit_count this)%Z ->
            result (get_retransmit_timeout (retransmit_count + 1)) this
            = (SUCCESS, Some ((2 * timeout) mod 2 ^ 32)%Z)))
    /\ ((32 <= retransmit_count)%Z ->
        result (get_retransmit_timeout retransmit_count) this
        = (SUCCESS, Some 0%Z)).
Proof.
  intros this rc Hrc Hmax.
  assert (Hok : forall n,
             (0 <= n < 2 ^ 32)%Z ->
             (max_retransmit_count this = 0 \/ n <= max_retransmit_count this)%Z ->
             result (get_retransmit_timeout n) this
             = (SUCCESS,
                Some ((first_retransmit_timeout this * 2 ^ n) mod 2 ^ 32)%Z)).
  { intros n Hn Hacc. rewrite get_retransmit_timeout_result.
    assert (Hsmall : u32 n = n) by (apply u32_small; unfold modulus; lia).
    rewrite Hsmall.
    destruct ((n >? max_retransmit_count this)%Z
              && negb (max_retransmit_count this =? 0)%Z) eqn:Hcond.
    - exfalso. apply andb_true_iff in Hcond as [Hgt Hnz].
      apply Z.gtb_gt in Hgt. apply negb_true_iff, Z.eqb_neq in Hnz. lia.
    - reflexivity. }
  split.
  - exists ((first_retransmit_timeout this * 2 ^ rc) mod 2 ^ 32)%Z.
    split; [now apply Hok|]. split; [apply Z.mod_pos_bound; lia|].
    intros Hnext Hacc. rewrite (Hok (rc + 1)%Z) by (try assumption; lia).
    do 2 f_equal.
    rewrite Z.pow_add_r by lia. change (2 ^ 1)%Z with 2%Z.
    rewrite Z.mul_mod_idemp_r by lia. f_equal. ring.
  - intros H32. rewrite (Hok rc) by assumption. do 2 f_equal.
    rewrite <- Z.mul_mod_idemp_r by lia.
    rewrite (pow2_multiple_of_modulus H32), Z.mul_0_r. reflexivity.
Qed.

End Composition.

(** A first timeout of 3000 ms.  With at most 32 retransmits the last
    accepted count, 32, gets the timeout 0; with unlimited retransmits
    so does the largest count there is; and with unlimited retransmits
    count 4 waits 48000 ms, twice the 24000 ms of count 3. *)
Lemma get_retransmit_timeout_wraps_to_zero_witness :
  result (get_retransmit_timeout 32) (Examples.timing 32 3000)
  = (SUCCESS, Some 0%Z)
  /\ result (get_retransmit_timeout 4294967295) (Examples.timing 0 3000)
     = (SUCCESS, Some 0%Z)
  /\ result (get_retransmit_timeout 4) (Examples.timing 0 3000)
     = (SUCCESS, Some 48000%Z).
Proof.
  split; [|split].
  - destruct (@get_retransmit_timeout_wraps_to_zero
                _ _ _ _ (Examples.timing 32 3000) 32%Z)
      as [_ Hzero]; [lia | right; simpl; lia |].
    apply Hzero. lia.
  - destruct (@get_retransmit_timeout_wraps_to_zero
                _ _ _ _ (Examples.timing 0 3000) 4294967295%Z)
      as [_ Hzero]; [lia | left; reflexivity |].
    apply Hzero. lia.
  - destruct (@get_retransmit_timeout_wraps_to_zero
                _ _ _ _ (Examples.timing 0 3000) 3%Z)
      as [(timeout & Hthree & _ & Hnext) _]; [lia | left; reflexivity |].
    assert (Htimeout : timeout = 24000%Z).
    { assert (Hrun : result (get_retransmit_timeout 3) (Examples.timing 0 3000)
                     = (SUCCESS, Some 24000%Z)) by reflexivity.
      rewrite Hrun in Hthree. now inversion Hthree. }
    subst timeout. apply Hnext; [lia | left; reflexivity].
Defined.

(** ** Resolving a peer *)

Section Resolution.

Context {host_t identification_t rsa_public_key_t rsa_private_key_t : Type}.
Context `{HostOps : Host host_t}.
Context `{IdentificationOps : Identification identification_t}.
Context `{KeyOps : RsaKeys rsa_public_key_t rsa_private_key_t}.

Local Abbreviation manager_t :=
  (private_configuration_manager_t host_t identification_t
     rsa_public_key_t rsa_private_key_t).
Local Abbreviation entry_t := (configuration_entry_t host_t identification_t).

(** X15.  A peer no entry is configured for is not resolved: when the
    remote host of no configuration entry has the observed remote
    address or is the default route, [get_init_config_for_host] reports
    [NOT_FOUND], whatever the local host. *)
Theorem get_init_config_for_host_unknown_remote :
  forall (this : manager_t) (other_host : host_t),
    (forall e, In e (configurations this) ->
               ip_is_equal (get_other_host (init_config e)) other_host = false
               /\ is_default_route (get_other_host (init_config e)) = false) ->
    forall my_host,
      result (get_init_config_for_host my_host other_host) this
      = (NOT_FOUND, None).
Proof.
  intros this other_host Hunknown my_host.
  rewrite get_init_config_for_host_first_match.
  apply first_match_not_found. intros e He.
  destruct (Hunknown e He) as [Hequal Hdefault].
  unfold host_entry_matches. now rewrite Hequal, Hdefault.
Qed.

(** X16.  The two lookups by name go together: for a name they either
    both fail, or they return the [init_config] and the [sa_config] of
    one and the same configuration entry, an entry of that name. *)
Theorem name_lookups_return_one_entry :
  forall (this : manager_t) (name_ : string),
    (exists e,
        In e (configurations this)
        /\ strcpy (name e) = strcpy name_
        /\ result (get_init_config_for_name name_) this
           = (SUCCESS, Some (init_config e))
        /\ result (get_sa_config_for_name name_) this
           = (SUCCESS, Some (sa_config e)))
    \/ (result (get_init_config_for_name name_) this = (NOT_FOUND, None)
        /\ result (get_sa_config_for_name name_) this = (NOT_FOUND, None)).
Proof.
  intros this name_.
  rewrite get_init_config_for_name_first_match,
    get_sa_config_for_name_first_match.
  unfold first_match.
  destruct (find (name_entry_matches name_) (configurations this)) as [e|] eqn:Hfind.
  - left. exists e. apply find_some in Hfind as [Hin Hmatch].
    unfold name_entry_matches in Hmatch. apply String.eqb_eq in Hmatch.
    repeat split; assumption.
  - right. split; reflexivity.
Qed.

(** X17.  The two steps of resolving a peer fit together: the
    [init_config_t] object [get_init_config_for_host] returns belongs to
    a configuration entry that matches the observed hosts, and with that
    object [get_sa_config_for_init_config_and_id] succeeds for every
    remote identity the entry's remote identity equals, without a local
    identity as well as with every local identity the entry's local
    identity equals. *)
Theorem host_resolution_feeds_identity_resolution :
  forall (this : manager_t) (my_host other_host : host_t)
         (ic : init_config_t host_t),
    result (get_init_config_for_host my_host other_host) this
    = (SUCCESS, Some ic) ->
    exists e,
      In e (configurations this)
      /\ init_config e = ic
      /\ host_entry_matches my_host other_host e = true
      /\ (forall other_id,
            equals (get_other_id (sa_config e)) other_id = true ->
            fst (result (get_sa_config_for_init_config_and_id ic other_id None)
                   this) = SUCCESS)
      /\ (forall other_id my_id,
            equals (get_other_id (sa_config e)) other_id = true ->
            equals (get_my_id (sa_config e)) my_id = true ->
            fst (result (get_sa_config_for_init_config_and_id ic other_id
                           (Some my_id)) this) = SUCCESS).
Proof.
  intros this my_host other_host ic.
  rewrite get_init_config_for_host_first_match. intros Hhost.
  apply first_match_success_in in Hhost as (e & He & Hmatch & ->).
  exists e. split; [exact He|]. split; [reflexivity|]. split; [exact Hmatch|].
  assert (Hsucceeds : forall accepts : entry_t -> bool,
             accepts e = true ->
             fst (first_match accepts sa_config (configurations this)) = SUCCESS).
  { intros accepts Hacc.
    destruct (first_match_cases accepts sa_config (configurations this))
      as [[e' He']|Hnone].
    - now rewrite He'.
    - rewrite (proj2 (first_match_not_found accepts sa_config _) Hnone e He)
        in Hacc.
      discriminate. }
  split.
  - intros other_id Hother.
    rewrite get_sa_config_for_id_first_match_none. apply Hsucceeds.
    unfold remote_id_entry_matches. now rewrite N.eqb_refl, Hother.
  - intros other_id my_id Hother Hmy.
    rewrite get_sa_config_for_id_first_match_some. apply Hsucceeds.
    unfold both_ids_entry_matches, remote_id_entry_matches.
    now rewrite N.eqb_refl, Hother, Hmy.
Qed.

End Resolution.

(** The exact entry for 1.2.3.0 alone, asked for the remote 4.4.4.4:
    nothing is found, from whichever local host. *)
Lemma get_init_config_for_host_unknown_remote_witness :
  result (get_init_config_for_host
            (Loopback.host_at 9 9 9 9) (Loopback.host_at 4 4 4 4))
    (Loopback.holding [Loopback.exact_entry] [] 3 1000)
  = (NOT_FOUND, None).
Proof.
  apply (@get_init_config_for_host_unknown_remote
           _ _ _ _ _ (Loopback.holding [Loopback.exact_entry] [] 3 1000)
           (Loopback.host_at 4 4 4 4)).
  intros e [<-|[]]. split; reflexivity.
Defined.

(** The exact entry in front of the wildcard entry: the object the host
    lookup returns for remote 1.2.3.0 resolves the remote identity
    1.2.3.0. *)
Lemma host_resolution_feeds_identity_resolution_witness :
  fst (result (get_sa_config_for_init_config_and_id
                 (init_config Loopback.exact_entry)
                 (Loopback.ipv4_id "1.2.3.0") None)
         (Loopback.holding [Loopback.exact_entry; Loopback.wildcard_entry]
            [] 3 1000))
  = SUCCESS.
Proof.
  destruct (@host_resolution_feeds_identity_resolution
              _ _ _ _ _ _
              (Loopback.holding [Loopback.exact_entry; Loopback.wildcard_entry]
                 [] 3 1000)
              (Loopback.host_at 9 9 9 9) (Loopback.host_at 1 2 3 0)
              (init_config Loopback.exact_entry))
    as (e & Hin & Hic & _ & Hnone & _); [reflexivity|].
  apply Hnone.
  destruct Hin as [<-|[<-|[]]].
  - reflexivity.
  - discriminate Hic.
Defined.
